(** * User-data synchronisation engine (keybindings resource)

    A shallow embedding of
    - [UserDataSyncStoreService] (remote store client, request/status mapping),
    - [AbstractSynchroniser] / [AbstractFileSynchroniser] /
      [AbstractJsonFileSynchroniser] (sync, doSync, checkpoint, remote read/write),
    - [KeybindingsSynchroniser] (generatePreview, performSync, apply, accept, pull)
    of src/src/vs/platform/userDataSync/common/userDataSyncStoreService.ts and
    src/unnamed/part_000.

    The synchroniser's asynchronous methods become computations in a small
    state-and-error monad over a [World] record holding the local file, the
    checkpoint file, the preview file, the remote server, the synchroniser's
    fields (status, in-flight preview) and a log of observable actions. *)

From Stdlib Require Import String Ascii List Bool ZArith Lia RelationClasses.
Import ListNotations.
Open Scope string_scope.
Open Scope Z_scope.
Set Warnings "-register-all".

(* ------------------------------------------------------------------------- *)
(** ** JSON values, [JSON.stringify] and [JSON.parse]                          *)
(* ------------------------------------------------------------------------- *)

(** JSON values. Objects keep their keys in insertion order, as JavaScript
    objects do for string keys. Numbers are modelled as integers: the payloads
    of this engine only carry integral version numbers. *)
Inductive jv : Type :=
| JNull
| JBool (b : bool)
| JNum (z : Z)
| JStr (s : string)
| JArr (l : list jv)
| JObj (kvs : list (string * jv)).

Definition chr (n : nat) : ascii := ascii_of_nat n.
Definition code (c : ascii) : nat := nat_of_ascii c.

(** The double quote and the backslash. *)
Definition dq : ascii := chr 34.
Definition bs : ascii := chr 92.

(** Decimal digits of a non-negative integer ([fuel] bounds the digit count). *)
Fixpoint digits_of (fuel : nat) (z : Z) (acc : string) : string :=
  match fuel with
  | O => acc
  | S f =>
      let acc' := String (chr (48 + Z.to_nat (z mod 10))) acc in
      if z / 10 =? 0 then acc' else digits_of f (z / 10) acc'
  end.

Definition show_Z (z : Z) : string :=
  let fuel := S (Z.to_nat (Z.log2 (Z.abs z))) in
  if z <? 0 then "-" ++ digits_of fuel (- z) "" else digits_of fuel z "".

Definition hex_digit (n : nat) : ascii :=
  if Nat.ltb n 10 then chr (48 + n) else chr (87 + n).

(** The escaping of [JSON.stringify] for one character. *)
Definition escape_char (c : ascii) : string :=
  let n := code c in
  if Ascii.eqb c dq then String bs (String dq EmptyString)
  else if Ascii.eqb c bs then String bs (String bs EmptyString)
  else if Nat.eqb n 8 then "\b"
  else if Nat.eqb n 12 then "\f"
  else if Nat.eqb n 10 then "\n"
  else if Nat.eqb n 13 then "\r"
  else if Nat.eqb n 9 then "\t"
  else if Nat.ltb n 32 then
    "\u00" ++ String (hex_digit (Nat.div n 16)) (String (hex_digit (Nat.modulo n 16)) "")
  else String c "".

Fixpoint escape_string (s : string) : string :=
  match s with
  | EmptyString => ""
  | String c r => escape_char c ++ escape_string r
  end.

Definition quote (s : string) : string := String dq (escape_string s ++ String dq EmptyString).

Fixpoint concat_sep (sep : string) (l : list string) : string :=
  match l with
  | [] => ""
  | [x] => x
  | x :: r => x ++ sep ++ concat_sep sep r
  end.

(** [JSON.stringify]. *)
Fixpoint stringify (v : jv) : string :=
  match v with
  | JNull => "null"
  | JBool true => "true"
  | JBool false => "false"
  | JNum z => show_Z z
  | JStr s => quote s
  | JArr l => "[" ++ concat_sep "," (map stringify l) ++ "]"
  | JObj kvs =>
      "{" ++ concat_sep "," (map (fun kv => quote (fst kv) ++ ":" ++ stringify (snd kv)) kvs) ++ "}"
  end.

(** Property lookup, assignment (in place when present, appended otherwise)
    and [delete] on an object's key list. *)
Fixpoint lookup (k : string) (kvs : list (string * jv)) : option jv :=
  match kvs with
  | [] => None
  | (k', v) :: r => if String.eqb k k' then Some v else lookup k r
  end.

Fixpoint set_prop (k : string) (v : jv) (kvs : list (string * jv)) : list (string * jv) :=
  match kvs with
  | [] => [(k, v)]
  | (k', v') :: r => if String.eqb k k' then (k', v) :: r else (k', v') :: set_prop k v r
  end.

Fixpoint delete_prop (k : string) (kvs : list (string * jv)) : list (string * jv) :=
  match kvs with
  | [] => []
  | (k', v') :: r => if String.eqb k k' then delete_prop k r else (k', v') :: delete_prop k r
  end.

(** *** A recursive-descent reader shared by [JSON.parse] and the JSONC check

    [jsonc = false]: the strict grammar of [JSON.parse].
    [jsonc = true]: the grammar accepted without errors by [parse] of
    vs/base/common/json with [allowTrailingComma] and [allowEmptyContent]
    (comments allowed, trailing commas allowed, fractions and exponents in
    numbers allowed). *)

Definition is_ws (jsonc : bool) (c : ascii) : bool :=
  let n := code c in
  Nat.eqb n 32 || Nat.eqb n 9 || Nat.eqb n 10 || Nat.eqb n 13
  || (jsonc && (Nat.eqb n 11 || Nat.eqb n 12)).

Fixpoint drop_line (s : string) : string :=
  match s with
  | EmptyString => EmptyString
  | String c r => if Nat.eqb (code c) 10 then r else drop_line r
  end.

(** The rest after the closing star-slash of a block comment, if any. *)
Fixpoint drop_block (s : string) : option string :=
  match s with
  | String "*" ((String "/" r) as _) => Some r
  | String _ r => drop_block r
  | EmptyString => None
  end.

(** Skips whitespace (and comments in JSONC). An unterminated block comment
    is left in place, so that the reader then fails on it. *)
Fixpoint skip_ws_f (jsonc : bool) (fuel : nat) (s : string) : string :=
  match fuel with
  | O => s
  | S f =>
      match s with
      | String c r =>
          if is_ws jsonc c then skip_ws_f jsonc f r
          else if jsonc && Ascii.eqb c "/" then
            match r with
            | String "/" r' => skip_ws_f jsonc f (drop_line r')
            | String "*" r' =>
                match drop_block r' with
                | Some r'' => skip_ws_f jsonc f r''
                | None => s
                end
            | _ => s
            end
          else s
      | EmptyString => s
      end
  end.

Definition skip_ws (jsonc : bool) (s : string) : string := skip_ws_f jsonc (S (String.length s)) s.

Definition is_digit (c : ascii) : bool := Nat.leb 48 (code c) && Nat.leb (code c) 57.

Definition hex_val (c : ascii) : option nat :=
  let n := code c in
  if Nat.leb 48 n && Nat.leb n 57 then Some (n - 48)%nat
  else if Nat.leb 97 n && Nat.leb n 102 then Some (n - 87)%nat
  else if Nat.leb 65 n && Nat.leb n 70 then Some (n - 55)%nat
  else None.

(** The body of a string literal after its opening quote. A [\u] escape
    denotes one character; code units above 255 are outside this 8-bit
    model of strings and make the reader fail. *)
Fixpoint read_string (s : string) (acc : string) : option (string * string) :=
  match s with
  | EmptyString => None
  | String c r =>
      if Ascii.eqb c dq then Some (acc, r)
      else if Nat.ltb (code c) 32 then None
      else if Ascii.eqb c "\" then
        match r with
        | String e r' =>
            let put x := read_string r' (acc ++ String x "") in
            if Ascii.eqb e dq then put dq
            else if Ascii.eqb e bs then put bs
            else if Ascii.eqb e "/" then put "/"%char
            else if Ascii.eqb e "b" then put (chr 8)
            else if Ascii.eqb e "f" then put (chr 12)
            else if Ascii.eqb e "n" then put (chr 10)
            else if Ascii.eqb e "r" then put (chr 13)
            else if Ascii.eqb e "t" then put (chr 9)
            else if Ascii.eqb e "u" then
              match r' with
              | String h1 (String h2 (String h3 (String h4 r''))) =>
                  match hex_val h1, hex_val h2, hex_val h3, hex_val h4 with
                  | Some a, Some b, Some c3, Some d =>
                      let n := a * 4096 + b * 256 + c3 * 16 + d in
                      if Nat.ltb n 256 then read_string r'' (acc ++ String (chr n) "")
                      else None
                  | _, _, _, _ => None
                  end%nat
              | _ => None
              end
            else None
        | EmptyString => None
        end
      else read_string r (acc ++ String c "")
  end.

(** Maximal run of digits, with its value and length. *)
Fixpoint read_digits (s : string) (acc : Z) (n : nat) : Z * nat * string :=
  match s with
  | String c r =>
      if is_digit c then read_digits r (acc * 10 + Z.of_nat (code c - 48)) (S n)
      else (acc, n, s)
  | EmptyString => (acc, n, s)
  end.

(** A number literal: [Some (value, integral, rest)]. *)
Definition read_number (s : string) : option (Z * bool * string) :=
  let '(neg, s1) := match s with String "-" r => (true, r) | _ => (false, s) end in
  let '(v, n, s2) := read_digits s1 0 0 in
  let lead_ok :=
    match s1 with
    | String "0" (String c _) => negb (is_digit c)
    | _ => true
    end in
  if Nat.eqb n 0 || negb lead_ok then None
  else
    let v := if neg then - v else v in
    let '(frac_ok, frac, s3) :=
      match s2 with
      | String "." r => let '(_, m, r') := read_digits r 0 0 in (negb (Nat.eqb m 0), true, r')
      | _ => (true, false, s2)
      end in
    let '(exp_ok, expo, s4) :=
      match s3 with
      | String e r =>
          if Ascii.eqb e "e" || Ascii.eqb e "E" then
            let r1 := match r with String "+" r' => r' | String "-" r' => r' | _ => r end in
            let '(_, m, r') := read_digits r1 0 0 in (negb (Nat.eqb m 0), true, r')
          else (true, false, s3)
      | EmptyString => (true, false, s3)
      end in
    if frac_ok && exp_ok then Some (v, negb (frac || expo), s4) else None.

Definition starts_with (p s : string) : bool := String.prefix p s.

Fixpoint read_value (jsonc : bool) (fuel : nat) (s : string) {struct fuel}
  : option (jv * string) :=
  match fuel with
  | O => None
  | S f =>
      let s := skip_ws jsonc s in
      match s with
      | String "[" r => read_array jsonc f r [] true
      | String "{" r => read_object jsonc f r [] true
      | String c r =>
          if Ascii.eqb c dq then
            match read_string r "" with Some (x, r') => Some (JStr x, r') | None => None end
          else if starts_with "true" s then Some (JBool true, substring 4 (String.length s) s)
          else if starts_with "false" s then Some (JBool false, substring 5 (String.length s) s)
          else if starts_with "null" s then Some (JNull, substring 4 (String.length s) s)
          else
            match read_number s with
            | Some (z, integral, r) => if integral || jsonc then Some (JNum z, r) else None
            | None => None
            end
      | EmptyString => None
      end
  end
with read_array (jsonc : bool) (fuel : nat) (s : string) (acc : list jv) (first : bool)
  {struct fuel} : option (jv * string) :=
  match fuel with
  | O => None
  | S f =>
      let s := skip_ws jsonc s in
      match s with
      | String "]" r => if first || jsonc then Some (JArr (rev acc), r) else None
      | _ =>
          match read_value jsonc f s with
          | None => None
          | Some (v, r) =>
              match skip_ws jsonc r with
              | String "," r' => read_array jsonc f r' (v :: acc) false
              | String "]" r' => Some (JArr (rev (v :: acc)), r')
              | _ => None
              end
          end
      end
  end
with read_object (jsonc : bool) (fuel : nat) (s : string) (acc : list (string * jv))
  (first : bool) {struct fuel} : option (jv * string) :=
  match fuel with
  | O => None
  | S f =>
      let s := skip_ws jsonc s in
      match s with
      | String "}" r => if first || jsonc then Some (JObj acc, r) else None
      | String c r =>
          if negb (Ascii.eqb c dq) then None else
          match read_string r "" with
          | None => None
          | Some (k, r1) =>
              match skip_ws jsonc r1 with
              | String ":" r2 =>
                  match read_value jsonc f r2 with
                  | None => None
                  | Some (v, r3) =>
                      match skip_ws jsonc r3 with
                      | String "," r' => read_object jsonc f r' (set_prop k v acc) false
                      | String "}" r' => Some (JObj (set_prop k v acc), r')
                      | _ => None
                      end
                  end
              | _ => None
              end
          end
      | _ => None
      end
  end.

(** [JSON.parse]: [None] when it throws. *)
Definition json_parse (s : string) : option jv :=
  match read_value false (2 * String.length s + 2)%nat s with
  | Some (v, r) => match skip_ws false r with EmptyString => Some v | _ => None end
  | None => None
  end.

(** [AbstractJsonFileSynchroniser.hasErrors]: [parse] of vs/base/common/json
    with [allowEmptyContent] and [allowTrailingComma] reports an error. *)
Definition hasErrors (content : string) : bool :=
  match skip_ws true content with
  | EmptyString => false
  | _ =>
      match read_value true (2 * String.length content + 2)%nat content with
      | Some (_, r) => match skip_ws true r with EmptyString => false | _ => true end
      | None => true
      end
  end.

(** *** Well-formed values and the size of a value

    [JSON.parse] never yields an object with a repeated key; [json_wf] states
    this of a value and of all values nested in it. [jsize] bounds the
    nesting the reader has to go through. *)

Section JvInd.
Variable P : jv -> Prop.
Hypothesis HNull : P JNull.
Hypothesis HBool : forall b, P (JBool b).
Hypothesis HNum : forall z, P (JNum z).
Hypothesis HStr : forall s, P (JStr s).
Hypothesis HArr : forall l, Forall P l -> P (JArr l).
Hypothesis HObj : forall kvs, Forall (fun kv => P (snd kv)) kvs -> P (JObj kvs).

(** Induction over values, with the nested elements and members. *)
Fixpoint jv_rect' (v : jv) : P v :=
  match v with
  | JNull => HNull
  | JBool b => HBool b
  | JNum z => HNum z
  | JStr s => HStr s
  | JArr l => HArr l ((fix go (l : list jv) : Forall P l :=
                         match l with
                         | [] => Forall_nil _
                         | x :: r => Forall_cons _ (jv_rect' x) (go r)
                         end) l)
  | JObj kvs => HObj kvs ((fix go (kvs : list (string * jv)) : Forall (fun kv => P (snd kv)) kvs :=
                         match kvs with
                         | [] => Forall_nil _
                         | (k, x) :: r => Forall_cons (P := fun kv => P (snd kv)) (k, x) (jv_rect' x) (go r)
                         end) kvs)
  end.
End JvInd.

Fixpoint json_wf (v : jv) : Prop :=
  match v with
  | JArr l => (fix go (l : list jv) : Prop :=
                 match l with [] => True | x :: r => json_wf x /\ go r end) l
  | JObj kvs => NoDup (map fst kvs) /\
               (fix go (kvs : list (string * jv)) : Prop :=
                  match kvs with [] => True | (_, x) :: r => json_wf x /\ go r end) kvs
  | _ => True
  end.

Fixpoint jsize (v : jv) : nat :=
  match v with
  | JArr l => 2 + (fix go (l : list jv) : nat :=
                     match l with [] => 0 | x :: r => S (jsize x) + go r end) l
  | JObj kvs => 2 + (fix go (kvs : list (string * jv)) : nat :=
                       match kvs with [] => 0 | (_, x) :: r => S (jsize x) + go r end) kvs
  | _ => 1
  end%nat.

(** What may follow a value inside the text [JSON.stringify] produces. *)
Definition delim (rest : string) : Prop :=
  rest = "" \/ exists r, rest = String "," r \/ rest = String "]" r \/ rest = String "}" r.

(* ------------------------------------------------------------------------- *)
(** ** Errors, data model and the world                                        *)
(* ------------------------------------------------------------------------- *)

(** [UserDataSyncErrorCode]. *)
Inductive UserDataSyncErrorCode :=
| Unauthorized | Forbidden | ConnectionRefused | RemotePreconditionFailed | TooLarge
| NoRef | TurnedOff | SessionExpired
| LocalPreconditionFailed | LocalInvalidContent | LocalError | Incompatible
| Unknown.

Definition code_eqb (a b : UserDataSyncErrorCode) : bool :=
  match a, b with
  | Unauthorized, Unauthorized | Forbidden, Forbidden
  | ConnectionRefused, ConnectionRefused
  | RemotePreconditionFailed, RemotePreconditionFailed | TooLarge, TooLarge
  | NoRef, NoRef | TurnedOff, TurnedOff | SessionExpired, SessionExpired
  | LocalPreconditionFailed, LocalPreconditionFailed
  | LocalInvalidContent, LocalInvalidContent | LocalError, LocalError
  | Incompatible, Incompatible | Unknown, Unknown => true
  | _, _ => false
  end.

(** A thrown value: a [UserDataSyncError] (or its subclass
    [UserDataSyncStoreError]) with its code, or any other [Error]. *)
Inductive Exn :=
| SyncError (c : UserDataSyncErrorCode)
| PlainError (msg : string).

Inductive SyncStatus := Uninitialized | Idle | Syncing | HasConflicts.

Definition status_eqb (a b : SyncStatus) : bool :=
  match a, b with
  | Uninitialized, Uninitialized | Idle, Idle | Syncing, Syncing
  | HasConflicts, HasConflicts => true
  | _, _ => false
  end.

(** [IUserData]. *)
Record UserData := { ud_ref : string; ud_content : option string }.

(** [ISyncData] (kept as its two fields). *)
Record SyncData := { version : Z; sd_content : string }.

(** [IRemoteUserData]. *)
Record RemoteUserData := { rref : string; syncData : option SyncData }.

(** [IFileContent]: the value read and the modification stamp (mtime/etag)
    that the file service compares on a conditional write. *)
Record FileContent := { fc_value : string; fc_stamp : nat }.

(** [IFileSyncPreviewResult]. *)
Record Preview := {
  p_fileContent : option FileContent;
  p_remoteUserData : RemoteUserData;
  p_lastSyncUserData : option RemoteUserData;
  p_content : option string;
  p_hasLocalChanged : bool;
  p_hasRemoteChanged : bool;
  p_hasConflicts : bool
}.

(** HTTP request and response ([IRequestOptions], [IRequestContext]). *)
Record Request := {
  rq_type : string;
  rq_url : string;
  rq_headers : list (string * string);
  rq_data : option string
}.

Record Response := {
  rs_status : Z;
  rs_etag : option string;
  rs_body : option string      (* [asText]: [None] when there is no payload *)
}.

(** The remote side. [Scripted] answers successive requests with the given
    outcomes ([None]: the request itself fails, e.g. the connection is
    refused; an exhausted script refuses every further connection).
    [Store] is a store holding the keybindings resource: its revision
    counter, used as ETag, and its content. *)
Inductive Server :=
| Scripted (answers : list (option Response))
| Store (rev : nat) (content : option string).

(** Observable actions, newest first in the log. *)
Inductive Event :=
| EvRequest (rq : Request)
| EvTokenFailed
| EvLocalWrite (content : string)
| EvBackup (content : string)
| EvLastSyncWrite (content : string)
| EvPreviewWrite (content : string)
| EvPreviewDelete
| EvStatus (s : SyncStatus)
| EvMerge (local remote : string) (base : option string).

Record World := {
  w_store_url : option string;        (* [userDataSyncStore.url] *)
  w_token : option string;            (* [authTokenService.getToken()] *)
  w_server : Server;
  w_enabled : bool;                   (* [isResourceEnabled('keybindings')] *)
  w_file : option FileContent;        (* the keybindings file *)
  w_clock : nat;                      (* source of fresh modification stamps *)
  w_last_sync : option string;        (* lastSynckeybindings.json *)
  w_preview_file : option string;     (* keybindingsSyncPreviewResource *)
  w_status : SyncStatus;              (* [_status] *)
  w_preview : option Preview;         (* [syncPreviewResultPromise], settled *)
  w_log : list Event
}.

(** Configuration of one keybindings synchroniser: the platform, the
    [sync.keybindingsPerPlatform] setting and the Merge Engine [merge] of
    keybindingsMerge (an external collaborator, with the formatting options
    of the file folded in). *)
Inductive OperatingSystem := Windows | Macintosh | Linux.

Record MergeResult := { mergeContent : string; hasChanges : bool; mr_hasConflicts : bool }.

Record Env := {
  OS : OperatingSystem;
  keybindingsPerPlatform : bool;
  merge : string -> string -> option string -> MergeResult
}.

(* ------------------------------------------------------------------------- *)
(** ** The state-and-error monad                                              *)
(* ------------------------------------------------------------------------- *)

(** [OutOfFuel] stands for a run that has not finished within the given
    number of retries (the source retries without bound). *)
Inductive Result (A : Type) :=
| Ok (a : A)
| Err (e : Exn)
| OutOfFuel.
Arguments Ok {A} a.
Arguments Err {A} e.
Arguments OutOfFuel {A}.

Definition M (A : Type) := World -> Result A * World.

Definition ret {A} (a : A) : M A := fun w => (Ok a, w).
Definition throw {A} (e : Exn) : M A := fun w => (Err e, w).
Definition bind {A B} (m : M A) (k : A -> M B) : M B :=
  fun w =>
    match m w with
    | (Ok a, w') => k a w'
    | (Err e, w') => (Err e, w')
    | (OutOfFuel, w') => (OutOfFuel, w')
    end.
(** [try { m } catch (e) { h(e) }]. *)
Definition catch {A} (m : M A) (h : Exn -> M A) : M A :=
  fun w =>
    match m w with
    | (Err e, w') => h e w'
    | r => r
    end.
Definition get : M World := fun w => (Ok w, w).
Definition modify (f : World -> World) : M unit := fun w => (Ok tt, f w).
Definition out_of_fuel {A} : M A := fun w => (OutOfFuel, w).

Notation "x <- m ;; k" := (bind m (fun x => k)) (at level 61, m at next level, right associativity).
Notation "m ;; k" := (bind m (fun _ => k)) (at level 61, right associativity).

Definition with_log (ev : Event) (w : World) : World :=
  {| w_store_url := w_store_url w; w_token := w_token w; w_server := w_server w;
     w_enabled := w_enabled w; w_file := w_file w; w_clock := w_clock w;
     w_last_sync := w_last_sync w; w_preview_file := w_preview_file w;
     w_status := w_status w; w_preview := w_preview w; w_log := ev :: w_log w |}.

Definition emit (ev : Event) : M unit := modify (with_log ev).

Definition set_server (s : Server) (w : World) : World :=
  {| w_store_url := w_store_url w; w_token := w_token w; w_server := s;
     w_enabled := w_enabled w; w_file := w_file w; w_clock := w_clock w;
     w_last_sync := w_last_sync w; w_preview_file := w_preview_file w;
     w_status := w_status w; w_preview := w_preview w; w_log := w_log w |}.

Definition set_file (f : option FileContent) (clock : nat) (w : World) : World :=
  {| w_store_url := w_store_url w; w_token := w_token w; w_server := w_server w;
     w_enabled := w_enabled w; w_file := f; w_clock := clock;
     w_last_sync := w_last_sync w; w_preview_file := w_preview_file w;
     w_status := w_status w; w_preview := w_preview w; w_log := w_log w |}.

Definition set_last_sync (c : option string) (w : World) : World :=
  {| w_store_url := w_store_url w; w_token := w_token w; w_server := w_server w;
     w_enabled := w_enabled w; w_file := w_file w; w_clock := w_clock w;
     w_last_sync := c; w_preview_file := w_preview_file w;
     w_status := w_status w; w_preview := w_preview w; w_log := w_log w |}.

Definition set_preview_file (c : option string) (w : World) : World :=
  {| w_store_url := w_store_url w; w_token := w_token w; w_server := w_server w;
     w_enabled := w_enabled w; w_file := w_file w; w_clock := w_clock w;
     w_last_sync := w_last_sync w; w_preview_file := c;
     w_status := w_status w; w_preview := w_preview w; w_log := w_log w |}.

Definition set_status_field (s : SyncStatus) (w : World) : World :=
  {| w_store_url := w_store_url w; w_token := w_token w; w_server := w_server w;
     w_enabled := w_enabled w; w_file := w_file w; w_clock := w_clock w;
     w_last_sync := w_last_sync w; w_preview_file := w_preview_file w;
     w_status := s; w_preview := w_preview w; w_log := w_log w |}.

Definition set_preview (p : option Preview) (w : World) : World :=
  {| w_store_url := w_store_url w; w_token := w_token w; w_server := w_server w;
     w_enabled := w_enabled w; w_file := w_file w; w_clock := w_clock w;
     w_last_sync := w_last_sync w; w_preview_file := w_preview_file w;
     w_status := w_status w; w_preview := p; w_log := w_log w |}.

(* ------------------------------------------------------------------------- *)
(** ** Remote store client: [UserDataSyncStoreService]                        *)
(* ------------------------------------------------------------------------- *)

Definition show_nat (n : nat) : string := show_Z (Z.of_nat n).

Fixpoint header (k : string) (hs : list (string * string)) : option string :=
  match hs with
  | [] => None
  | (k', v) :: r => if String.eqb k k' then Some v else header k r
  end.

(** [headers[k] = v]. *)
Fixpoint set_header (k v : string) (hs : list (string * string)) : list (string * string) :=
  match hs with
  | [] => [(k, v)]
  | (k', v') :: r => if String.eqb k k' then (k', v) :: r else (k', v') :: set_header k v r
  end.

(** JavaScript truthiness of a [string | null]. *)
Definition truthy (s : option string) : bool :=
  match s with Some "" | None => false | Some _ => true end.

(** Modelled from the spec (section 6, remote protocol): the answer of an
    honest store holding the keybindings resource. A conditional GET whose
    [If-None-Match] names the current ETag is answered 304; a POST whose
    [If-Match] names another ETag is answered 412; every accepted write takes
    a fresh ETag. *)
Definition store_answer (base : string) (rev : nat) (content : option string) (rq : Request)
  : option Response * Server :=
  let etag := show_nat rev in
  let coll := base ++ "/resource/keybindings" in
  if String.eqb (rq_type rq) "GET" && String.eqb (rq_url rq) (coll ++ "/latest") then
    match header "If-None-Match" (rq_headers rq) with
    | Some t =>
        if String.eqb t etag
        then (Some {| rs_status := 304; rs_etag := Some etag; rs_body := None |}, Store rev content)
        else (Some {| rs_status := if content then 200 else 204; rs_etag := Some etag;
                      rs_body := content |}, Store rev content)
    | None =>
        (Some {| rs_status := if content then 200 else 204; rs_etag := Some etag;
                 rs_body := content |}, Store rev content)
    end
  else if String.eqb (rq_type rq) "POST" && String.eqb (rq_url rq) coll then
    match header "If-Match" (rq_headers rq) with
    | Some t =>
        if String.eqb t etag
        then (Some {| rs_status := 200; rs_etag := Some (show_nat (S rev)); rs_body := None |},
              Store (S rev) (rq_data rq))
        else (Some {| rs_status := 412; rs_etag := None; rs_body := None |}, Store rev content)
    | None =>
        (Some {| rs_status := 200; rs_etag := Some (show_nat (S rev)); rs_body := None |},
         Store (S rev) (rq_data rq))
    end
  else if String.eqb (rq_type rq) "DELETE" && String.eqb (rq_url rq) coll then
    (Some {| rs_status := 200; rs_etag := None; rs_body := None |}, Store (S rev) None)
  else (Some {| rs_status := 404; rs_etag := None; rs_body := None |}, Store rev content).

(** [requestService.request]: the server's answer, [None] when it throws. *)
Definition serve (rq : Request) : M (option Response) :=
  fun w =>
    match w_server w with
    | Scripted [] => (Ok None, w)
    | Scripted (a :: r) => (Ok a, set_server (Scripted r) w)
    | Store rev c =>
        let base := match w_store_url w with Some b => b | None => "" end in
        let '(a, s') := store_answer base rev c rq in (Ok a, set_server s' w)
    end.

(** Modelled from the spec: [isSuccess] of vs/platform/request (a 2xx status). *)
Definition isSuccess (ctx : Response) : bool := (200 <=? rs_status ctx) && (rs_status ctx <? 300).

(** [UserDataSyncStoreService.request]. *)
Definition request (rq : Request) : M Response :=
  w <- get;;
  match w_token w with
  | None | Some "" => throw (SyncError Unauthorized)
  | Some tok =>
      let rq := {| rq_type := rq_type rq; rq_url := rq_url rq;
                   rq_headers := set_header "authorization" ("Bearer " ++ tok) (rq_headers rq);
                   rq_data := rq_data rq |} in
      emit (EvRequest rq);;
      ans <- serve rq;;
      match ans with
      | None => throw (SyncError ConnectionRefused)
      | Some ctx =>
          if rs_status ctx =? 401 then emit EvTokenFailed;; throw (SyncError Unauthorized)
          else if rs_status ctx =? 403 then throw (SyncError Forbidden)
          else if rs_status ctx =? 412 then throw (SyncError RemotePreconditionFailed)
          else if rs_status ctx =? 413 then throw (SyncError TooLarge)
          else ret ctx
      end
  end.

Definition no_store_url {A} : M A := throw (PlainError "No settings sync store url configured.").

(** [UserDataSyncStoreService.read]; a 304 answers [oldValue], which may be
    [null]. *)
Definition read (key : string) (oldValue : option UserData) : M (option UserData) :=
  w <- get;;
  match w_store_url w with
  | None => no_store_url
  | Some base =>
      let url := base ++ "/resource/" ++ key ++ "/latest" in
      let headers := app [("Cache-Control", "no-cache")]
                     (match oldValue with Some o => [("If-None-Match", ud_ref o)] | None => [] end) in
      ctx <- request {| rq_type := "GET"; rq_url := url; rq_headers := headers; rq_data := None |};;
      if rs_status ctx =? 304 then ret oldValue
      else if negb (isSuccess ctx) then throw (SyncError Unknown)
      else if negb (truthy (rs_etag ctx)) then throw (SyncError NoRef)
      else ret (Some {| ud_ref := match rs_etag ctx with Some r => r | None => "" end;
                        ud_content := rs_body ctx |})
  end.

(** [UserDataSyncStoreService.write]. *)
Definition write (key : string) (data : string) (ref : option string) : M string :=
  w <- get;;
  match w_store_url w with
  | None => no_store_url
  | Some base =>
      let url := base ++ "/resource/" ++ key in
      let headers := app [("Content-Type", "text/plain")]
                     (if truthy ref then [("If-Match", match ref with Some r => r | None => "" end)]
                         else []) in
      ctx <- request {| rq_type := "POST"; rq_url := url; rq_headers := headers; rq_data := Some data |};;
      if negb (isSuccess ctx) then throw (SyncError Unknown)
      else if negb (truthy (rs_etag ctx)) then throw (SyncError NoRef)
      else ret (match rs_etag ctx with Some r => r | None => "" end)
  end.

(** [UserDataSyncStoreService.delete]. *)
Definition delete (key : string) : M unit :=
  w <- get;;
  match w_store_url w with
  | None => no_store_url
  | Some base =>
      let url := base ++ "/resource/" ++ key in
      ctx <- request {| rq_type := "DELETE"; rq_url := url; rq_headers := []; rq_data := None |};;
      if negb (isSuccess ctx) then throw (SyncError Unknown) else ret tt
  end.

(** [UserDataSyncStoreService.resolveContent]: the content of one revision. *)
Definition resolveContent (key ref : string) : M (option string) :=
  w <- get;;
  match w_store_url w with
  | None => no_store_url
  | Some base =>
      let url := base ++ "/resource/" ++ key ++ "/" ++ ref in
      ctx <- request {| rq_type := "GET"; rq_url := url; rq_headers := []; rq_data := None |};;
      if negb (isSuccess ctx) then throw (SyncError Unknown) else ret (rs_body ctx)
  end.

(** [UserDataSyncStoreService.clear]. *)
Definition clear : M unit :=
  w <- get;;
  match w_store_url w with
  | None => no_store_url
  | Some base =>
      let url := base ++ "/resource" in
      ctx <- request {| rq_type := "DELETE"; rq_url := url;
                        rq_headers := [("Content-Type", "text/plain")]; rq_data := None |};;
      if negb (isSuccess ctx) then throw (SyncError Unknown) else ret tt
  end.







(* ------------------------------------------------------------------------- *)
(** ** Local files (modelled from the spec: [IFileService] is not under src/) *)
(* ------------------------------------------------------------------------- *)

(** [getLocalFileContent]: the file with its stamp, [null] when absent. *)
Definition getLocalFileContent : M (option FileContent) :=
  w <- get;; ret (w_file w).

Definition write_local (content : string) : M unit :=
  w <- get;;
  modify (set_file (Some {| fc_value := content; fc_stamp := S (w_clock w) |}) (S (w_clock w)));;
  emit (EvLocalWrite content).

(** [AbstractFileSynchroniser.updateLocalFileContent]. Modelled from the
    spec: [writeFile(file, content, oldContent)] fails with
    [FILE_MODIFIED_SINCE] when the file on disk carries another modification
    stamp than [oldContent]; [createFile(..., overwrite: false)] fails with
    [FileExists] when the file exists. Both become
    [LocalPreconditionFailed]. *)
Definition updateLocalFileContent (newContent : string) (oldContent : option FileContent) : M unit :=
  w <- get;;
  match oldContent with
  | Some old =>
      match w_file w with
      | Some cur =>
          if Nat.eqb (fc_stamp cur) (fc_stamp old) then write_local newContent
          else throw (SyncError LocalPreconditionFailed)
      | None => write_local newContent
      end
  | None =>
      match w_file w with
      | Some _ => throw (SyncError LocalPreconditionFailed)
      | None => write_local newContent
      end
  end.

Definition writePreviewFile (content : string) : M unit :=
  modify (set_preview_file (Some content));; emit (EvPreviewWrite content).

(** [try { await fileService.del(preview) } catch { }]. *)
Definition deletePreviewFile : M unit :=
  modify (set_preview_file None);; emit EvPreviewDelete.

(* ------------------------------------------------------------------------- *)
(** ** [AbstractSynchroniser]                                                 *)
(* ------------------------------------------------------------------------- *)

Definition resourceKey : string := "keybindings".

Definition syncData_json (sd : SyncData) : jv :=
  JObj [("version", JNum (version sd)); ("content", JStr (sd_content sd))].

(** [isSyncData]: a truthy number [version], a truthy string [content] and
    exactly these two keys. *)
Definition isSyncData (thing : jv) : option SyncData :=
  match thing with
  | JObj kvs =>
      match lookup "version" kvs, lookup "content" kvs with
      | Some (JNum v), Some (JStr c) =>
          if negb (v =? 0) && negb (String.eqb c "") && Nat.eqb (List.length kvs) 2
          then Some {| version := v; sd_content := c |} else None
      | _, _ => None
      end
  | _ => None
  end.

(** [setStatus]: records a change only when the status differs. *)
Definition setStatus (s : SyncStatus) : M unit :=
  w <- get;;
  if status_eqb (w_status w) s then ret tt
  else modify (set_status_field s);; emit (EvStatus s).

Section AbstractSynchroniser.

(** [this.version]. *)
Variable this_version : Z.

(** [parseSyncData]: [null] when [JSON.parse] throws; content that is not an
    [ISyncData] is migrated to [{ version: this.version, content }]. *)
Definition parseSyncData (content : string) : option SyncData :=
  match json_parse content with
  | None => None
  | Some v =>
      match isSyncData v with
      | Some sd => Some sd
      | None => Some {| version := this_version; sd_content := content |}
      end
  end.

(** [getLastSyncUserData]: [null] on any read or parse failure. A checkpoint
    whose [ref] or [content] field is not a string (never written by
    [updateLastSyncUserData]) is read as unreadable. *)
Definition getLastSyncUserData : M (option RemoteUserData) :=
  w <- get;;
  ret (match w_last_sync w with
       | None => None
       | Some raw =>
           match json_parse raw with
           | Some (JObj kvs) =>
               match lookup "content" kvs with
               | Some (JStr c) =>
                   match json_parse c with
                   | Some sdv =>
                       let sd := match isSyncData sdv with
                                 | Some sd => sd
                                 | None => {| version := this_version; sd_content := c |}
                                 end in
                       match lookup "ref" kvs with
                       | Some (JStr r) => Some {| rref := r; syncData := Some sd |}
                       | _ => None
                       end
                   | None => None
                   end
               | _ => None
               end
           | _ => None
           end
       end).

(** [updateLastSyncUserData]. *)
Definition updateLastSyncUserData (r : RemoteUserData) : M unit :=
  let content := match syncData r with
                 | Some sd => stringify (syncData_json sd)
                 | None => "null"
                 end in
  let raw := stringify (JObj [("ref", JStr (rref r)); ("content", JStr content)]) in
  modify (set_last_sync (Some raw));; emit (EvLastSyncWrite raw).

(** [getUserData] for a last-sync value (or [null]). *)
Definition getUserData (lastSyncData : option RemoteUserData) : M (option UserData) :=
  let old := match lastSyncData with
             | Some r => Some {| ud_ref := rref r;
                                 ud_content := match syncData r with
                                               | Some sd => Some (stringify (syncData_json sd))
                                               | None => None
                                               end |}
             | None => None
             end in
  read resourceKey old.

(** [getRemoteUserData]: destructuring a [null] answer (a 304 to a request
    without [If-None-Match]) throws a [TypeError]. *)
Definition getRemoteUserData (lastSyncData : option RemoteUserData) : M RemoteUserData :=
  ud <- getUserData lastSyncData;;
  match ud with
  | None => throw (PlainError "TypeError")
  | Some u =>
      ret {| rref := ud_ref u;
             syncData := match ud_content u with Some c => parseSyncData c | None => None end |}
  end.

(** [updateRemoteUserData]. *)
Definition updateRemoteUserData (content : string) (ref : option string) : M RemoteUserData :=
  let sd := {| version := this_version; sd_content := content |} in
  r <- write resourceKey (stringify (syncData_json sd)) ref;;
  ret {| rref := r; syncData := Some sd |}.

(** [backupLocal]. *)
Definition backupLocal (content : string) : M unit :=
  emit (EvBackup (stringify (syncData_json {| version := this_version; sd_content := content |}))).

(** [doSync], for the subclass's [performSync]; [fuel] bounds the number of
    retries after [RemotePreconditionFailed]. *)
Fixpoint doSync (performSync : RemoteUserData -> option RemoteUserData -> M SyncStatus)
  (fuel : nat) (remoteUserData : RemoteUserData) (lastSyncUserData : option RemoteUserData)
  : M SyncStatus :=
  if match syncData remoteUserData with
     | Some sd => this_version <? version sd
     | None => false
     end
  then throw (SyncError Incompatible)
  else
    catch (performSync remoteUserData lastSyncUserData)
      (fun e =>
         match e with
         | SyncError RemotePreconditionFailed =>
             match fuel with
             | O => out_of_fuel
             | S f =>
                 remoteUserData' <- getRemoteUserData None;;
                 doSync performSync f remoteUserData' lastSyncUserData
             end
         | _ => throw e
         end).

(** [try { body } finally { this.setStatus(status) }] where [status] is the
    value of [body] when it completes and [Idle] otherwise. *)
Definition finally_setStatus (body : M SyncStatus) : M unit :=
  fun w =>
    match body w with
    | (Ok s, w') => setStatus s w'
    | (Err e, w') => match setStatus Idle w' with (_, w'') => (Err e, w'') end
    | (OutOfFuel, w') => match setStatus Idle w' with (_, w'') => (OutOfFuel, w'') end
    end.

(** [sync(ref?)]. *)
Definition sync (performSync : RemoteUserData -> option RemoteUserData -> M SyncStatus)
  (fuel : nat) (ref : option string) : M unit :=
  w <- get;;
  if negb (w_enabled w) then ret tt
  else if status_eqb (w_status w) HasConflicts then ret tt
  else if status_eqb (w_status w) Syncing then ret tt
  else
    setStatus Syncing;;
    lastSyncUserData <- getLastSyncUserData;;
    remoteUserData <-
      (match ref, lastSyncUserData with
       | Some r, Some l => if truthy ref && String.eqb (rref l) r then ret l
                           else getRemoteUserData lastSyncUserData
       | _, _ => getRemoteUserData lastSyncUserData
       end);;
    finally_setStatus (doSync performSync fuel remoteUserData lastSyncUserData).

(** [hasPreviouslySynced]. *)
Definition hasPreviouslySynced : M bool :=
  lastSyncData <- getLastSyncUserData;;
  ret (match lastSyncData with Some _ => true | None => false end).

(** [resetLocal]: deletes the checkpoint file; a failure is ignored. *)
Definition resetLocal : M unit := modify (set_last_sync None).

(** [getUserData] for a ref ([isString(refOrLastSyncData)]). *)
Definition getUserDataOfRef (ref : string) : M UserData :=
  content <- resolveContent resourceKey ref;;
  ret {| ud_ref := ref; ud_content := content |}.

(** [getRemoteContent(ref?)]: [ref || await this.getLastSyncUserData()], then
    [getUserData]; destructuring a [null] answer throws a [TypeError]. *)
Definition getRemoteContent (ref : option string) : M (option string) :=
  if truthy ref then
    u <- getUserDataOfRef (match ref with Some r => r | None => "" end);;
    ret (ud_content u)
  else
    lastSyncData <- getLastSyncUserData;;
    u <- getUserData lastSyncData;;
    match u with
    | None => throw (PlainError "TypeError")
    | Some u => ret (ud_content u)
    end.

End AbstractSynchroniser.

(* ------------------------------------------------------------------------- *)
(** ** [KeybindingsSynchroniser]                                              *)
(* ------------------------------------------------------------------------- *)

(** [this.version] of the keybindings synchroniser. *)
Definition kb_version : Z := 1.

Definition opt_str_eqb (a b : option string) : bool :=
  match a, b with
  | Some x, Some y => String.eqb x y
  | None, None => true
  | _, _ => false
  end.

Definition with_content (p : Preview) (c : string) : Preview :=
  {| p_fileContent := p_fileContent p; p_remoteUserData := p_remoteUserData p;
     p_lastSyncUserData := p_lastSyncUserData p; p_content := Some c;
     p_hasLocalChanged := p_hasLocalChanged p; p_hasRemoteChanged := p_hasRemoteChanged p;
     p_hasConflicts := p_hasConflicts p |}.

(** [lastSyncUserData ? lastSyncUserData.ref : null] in [apply]. *)
Definition lastRefOf (p : Preview) : option string :=
  match p_lastSyncUserData p with Some l => Some (rref l) | None => None end.

(** [content !== null ? content : fileContent.value.toString()] in [apply],
    read only when one of the two is present. *)
Definition checkpointContentOf (p : Preview) : string :=
  match p_content p, p_fileContent p with
  | Some c, _ => c
  | None, Some f => fc_value f
  | None, None => ""
  end.

Section Keybindings.

Variable env : Env.

Definition os_key : string :=
  match OS env with Macintosh => "mac" | Linux => "linux" | Windows => "windows" end.

(** [getKeybindingsContentFromSyncContent]: [null] when [JSON.parse] throws
    or the property is missing. A property holding [null] or any other
    non-string value is read as [null]. *)
Definition getKeybindingsContentFromSyncContent (syncContent : string) : option string :=
  let prop k v :=
    match v with
    | JObj kvs => match lookup k kvs with Some (JStr s) => Some s | _ => None end
    | _ => None
    end in
  match json_parse syncContent with
  | None => None
  | Some v => if negb (keybindingsPerPlatform env) then prop "all" v else prop os_key v
  end.

(** [toSyncContent]. Assigning a property of [null] or of a primitive throws
    a [TypeError] (strict mode); named properties of an array are not
    serialised. *)
Definition toSyncContent (keybindingsContent : string) (syncContent : option string) : M string :=
  let parsed := match json_parse (if truthy syncContent
                                  then match syncContent with Some c => c | None => "" end
                                  else "{}") with
                | Some v => v
                | None => JObj []
                end in
  match parsed with
  | JObj kvs =>
      let kvs := if negb (keybindingsPerPlatform env)
                 then set_prop "all" (JStr keybindingsContent) kvs
                 else delete_prop "all" kvs in
      let kvs := set_prop os_key (JStr keybindingsContent) kvs in
      ret (stringify (JObj kvs))
  | JArr _ => ret (stringify parsed)
  | _ => throw (PlainError "TypeError")
  end.

Definition remoteContentOf (remoteUserData : RemoteUserData) : option string :=
  match syncData remoteUserData with
  | Some sd => getKeybindingsContentFromSyncContent (sd_content sd)
  | None => None
  end.

Definition lastSyncContentOf (lastSyncUserData : option RemoteUserData) : option string :=
  match lastSyncUserData with
  | Some l => remoteContentOf l
  | None => None
  end.

(** [fileContent ? fileContent.value.toString() : '[]'] *)
Definition localContentOf (fileContent : option FileContent) : string :=
  match fileContent with Some f => fc_value f | None => "[]" end.

(** The merge step of [generatePreview]: [(content, hasLocalChanged,
    hasRemoteChanged, hasConflicts)]. *)
Definition mergeStep (remoteContent : string) (lastSyncContent : option string)
  (fileContent : option FileContent) : M (option string * bool * bool * bool) :=
  let localContent := localContentOf fileContent in
  if hasErrors localContent then throw (SyncError LocalInvalidContent)
  else if negb (truthy lastSyncContent)
          || negb (opt_str_eqb lastSyncContent (Some localContent))
          || negb (opt_str_eqb lastSyncContent (Some remoteContent)) then
    emit (EvMerge localContent remoteContent lastSyncContent);;
    let result := merge env localContent remoteContent lastSyncContent in
    if hasChanges result then
      let hasConflicts := mr_hasConflicts result in
      ret (Some (mergeContent result),
           hasConflicts || negb (String.eqb (mergeContent result) localContent),
           hasConflicts || negb (String.eqb (mergeContent result) remoteContent),
           hasConflicts)
    else ret (None, false, false, false)
  else ret (None, false, false, false).

(** [generatePreview] (never cancelled in this sequential model). *)
Definition generatePreview (remoteUserData : RemoteUserData)
  (lastSyncUserData : option RemoteUserData) : M Preview :=
  let remoteContent := remoteContentOf remoteUserData in
  let lastSyncContent := lastSyncContentOf lastSyncUserData in
  fileContent <- getLocalFileContent;;
  r <- (if truthy remoteContent
        then mergeStep (match remoteContent with Some c => c | None => "" end) lastSyncContent fileContent
        else match fileContent with
             | Some f => ret (Some (fc_value f), false, true, false)
             | None => ret (None, false, false, false)
             end);;
  let '(content, hasLocalChanged, hasRemoteChanged, hasConflicts) := r in
  (if truthy content
   then writePreviewFile (match content with Some c => c | None => "" end)
   else ret tt);;
  ret {| p_fileContent := fileContent; p_remoteUserData := remoteUserData;
         p_lastSyncUserData := lastSyncUserData; p_content := content;
         p_hasLocalChanged := hasLocalChanged; p_hasRemoteChanged := hasRemoteChanged;
         p_hasConflicts := hasConflicts |}.

(** [getPreview]. *)
Definition getPreview (remoteUserData : RemoteUserData)
  (lastSyncUserData : option RemoteUserData) : M Preview :=
  w <- get;;
  match w_preview w with
  | Some p => ret p
  | None =>
      p <- generatePreview remoteUserData lastSyncUserData;;
      modify (set_preview (Some p));;
      ret p
  end.

(** The [content !== null] block of [apply]: local and remote writes; it
    yields the (possibly updated) [remoteUserData]. *)
Definition applyChanges (p : Preview) (forcePush : bool) : M RemoteUserData :=
  let remoteUserData := p_remoteUserData p in
  match p_content p with
  | Some content =>
      if hasErrors content then throw (SyncError LocalInvalidContent)
      else
        (if p_hasLocalChanged p then
           b <- toSyncContent content None;;
           backupLocal kb_version b;;
           updateLocalFileContent content (p_fileContent p)
         else ret tt);;
        remoteUserData' <-
          (if p_hasRemoteChanged p then
             remoteContents <- toSyncContent content
                                 (match syncData remoteUserData with
                                  | Some sd => Some (sd_content sd)
                                  | None => None
                                  end);;
             updateRemoteUserData kb_version remoteContents
               (if forcePush then None else Some (rref remoteUserData))
           else ret remoteUserData);;
        deletePreviewFile;;
        ret remoteUserData'
  | None => ret remoteUserData
  end.

(** The checkpoint step of [apply]. *)
Definition applyCheckpoint (p : Preview) (remoteUserData : RemoteUserData) : M unit :=
  if negb (opt_str_eqb (lastRefOf p) (Some (rref remoteUserData)))
     && (match p_content p with Some _ => true | None => false end
         || match p_fileContent p with Some _ => true | None => false end)
  then
    lastSyncContent <- toSyncContent (checkpointContentOf p) None;;
    match syncData remoteUserData with
    | None => throw (PlainError "TypeError")
    | Some sd =>
        updateLastSyncUserData {| rref := rref remoteUserData;
                                  syncData := Some {| version := version sd;
                                                      sd_content := lastSyncContent |} |}
    end
  else ret tt.

(** [apply(forcePush?)]. *)
Definition apply (forcePush : bool) : M unit :=
  w <- get;;
  match w_preview w with
  | None => ret tt
  | Some p =>
      remoteUserData <- applyChanges p forcePush;;
      applyCheckpoint p remoteUserData;;
      modify (set_preview None)
  end.

(** [performSync]; [fuel] bounds the retries after [LocalPreconditionFailed]. *)
Fixpoint performSync (fuel : nat) (remoteUserData : RemoteUserData)
  (lastSyncUserData : option RemoteUserData) : M SyncStatus :=
  catch
    (result <- getPreview remoteUserData lastSyncUserData;;
     if p_hasConflicts result then ret HasConflicts
     else apply false;; ret Idle)
    (fun e =>
       modify (set_preview None);;
       match e with
       | SyncError LocalPreconditionFailed =>
           match fuel with
           | O => out_of_fuel
           | S f => performSync f remoteUserData lastSyncUserData
           end
       | _ => throw e
       end).

(** [accept(content)]. Without an in-flight preview, [{ ...null, content }]
    carries no remote data and [apply] fails on [remoteUserData.ref]. *)
Definition accept (content : string) : M unit :=
  w <- get;;
  if status_eqb (w_status w) HasConflicts then
    match w_preview w with
    | Some preview =>
        modify (set_preview None);;
        modify (set_preview (Some (with_content preview content)));;
        apply true;;
        setStatus Idle
    | None =>
        if hasErrors content then throw (SyncError LocalInvalidContent)
        else deletePreviewFile;; throw (PlainError "TypeError")
    end
  else ret tt.

(** [sync(ref?)] of the keybindings synchroniser. *)
Definition kb_sync (fuel : nat) (ref : option string) : M unit :=
  sync kb_version (performSync fuel) fuel ref.

(** [getFragment]. *)
Definition getFragment (content fragment : string) : option string :=
  match parseSyncData kb_version content with
  | Some sd =>
      if String.eqb fragment "keybindings" then getKeybindingsContentFromSyncContent (sd_content sd)
      else None
  | None => None
  end.

(** [getRemoteContent(ref?, fragment?)] of the keybindings synchroniser. *)
Definition kb_getRemoteContent (ref fragment : option string) : M (option string) :=
  content <- getRemoteContent kb_version ref;;
  match content with
  | Some c =>
      if truthy fragment then ret (getFragment c (match fragment with Some f => f | None => "" end))
      else ret content
  | None => ret None
  end.

(** [pull]. The [stop()] it starts is not awaited: [cancel()] runs at once,
    the deletion of the preview file is issued, and [stop]'s
    [setStatus(Idle)] runs when that deletion completes; here the deletion
    completes first, so this [setStatus(Idle)] comes right after [pull]'s
    own [setStatus(Syncing)]. *)
Definition pull : M unit :=
  w <- get;;
  if negb (w_enabled w) then ret tt
  else
    modify (set_preview None);;
    finally_setStatus
      (setStatus Syncing;;
       deletePreviewFile;;
       setStatus Idle;;
       lastSyncUserData <- getLastSyncUserData kb_version;;
       remoteUserData <- getRemoteUserData kb_version lastSyncUserData;;
       match remoteContentOf remoteUserData with
       | Some content =>
           fileContent <- getLocalFileContent;;
           modify (set_preview (Some {| p_fileContent := fileContent;
                                        p_remoteUserData := remoteUserData;
                                        p_lastSyncUserData := lastSyncUserData;
                                        p_content := Some content;
                                        p_hasLocalChanged := true;
                                        p_hasRemoteChanged := false;
                                        p_hasConflicts := false |}));;
           apply false;;
           ret Idle
       | None => ret Idle
       end).

(** [push], with the same scheduling of the [stop()] it starts as [pull]. *)
Definition push : M unit :=
  w <- get;;
  if negb (w_enabled w) then ret tt
  else
    modify (set_preview None);;
    finally_setStatus
      (setStatus Syncing;;
       deletePreviewFile;;
       setStatus Idle;;
       fileContent <- getLocalFileContent;;
       match fileContent with
       | Some fc =>
           lastSyncUserData <- getLastSyncUserData kb_version;;
           remoteUserData <- getRemoteUserData kb_version lastSyncUserData;;
           modify (set_preview (Some {| p_fileContent := Some fc;
                                        p_remoteUserData := remoteUserData;
                                        p_lastSyncUserData := lastSyncUserData;
                                        p_content := Some (fc_value fc);
                                        p_hasLocalChanged := false;
                                        p_hasRemoteChanged := true;
                                        p_hasConflicts := false |}));;
           apply true;;
           ret Idle
       | None => ret Idle
       end).

End Keybindings.

(* ------------------------------------------------------------------------- *)
(** ** Reading the log                                                        *)
(* ------------------------------------------------------------------------- *)

(** Calls of the Merge Engine, newest first. *)
Fixpoint merges (l : list Event) : list (string * string * option string) :=
  match l with
  | [] => []
  | EvMerge a b c :: r => (a, b, c) :: merges r
  | _ :: r => merges r
  end.

(** Snapshots sent to the Local Backup Store, newest first. *)
Fixpoint backups (l : list Event) : list string :=
  match l with
  | [] => []
  | EvBackup c :: r => c :: backups r
  | _ :: r => backups r
  end.

(** Remote writes (POST requests) issued, newest first. *)
Fixpoint remote_writes (l : list Event) : list Request :=
  match l with
  | [] => []
  | EvRequest rq :: r => if String.eqb (rq_type rq) "POST" then rq :: remote_writes r else remote_writes r
  | _ :: r => remote_writes r
  end.

(** Writes of the local keybindings file, newest first. *)
Fixpoint local_writes (l : list Event) : list string :=
  match l with
  | [] => []
  | EvLocalWrite c :: r => c :: local_writes r
  | _ :: r => local_writes r
  end.

(** A remote write that carries an [If-Match] precondition. *)
Definition post_if_match (ev : Event) : Prop :=
  match ev with
  | EvRequest rq => rq_type rq = "POST" /\ header "If-Match" (rq_headers rq) <> None
  | _ => False
  end.






(* ------------------------------------------------------------------------- *)
(** ** Concrete configurations                                                *)
(* ------------------------------------------------------------------------- *)

(** A whole-content three-way Merge Engine: equal sides need nothing; a side
    equal to the base takes the other side; otherwise a conflict. *)
Definition merge_whole (local remote : string) (base : option string) : MergeResult :=
  if String.eqb local remote
  then {| mergeContent := local; hasChanges := false; mr_hasConflicts := false |}
  else match base with
       | Some b =>
           if String.eqb b local
           then {| mergeContent := remote; hasChanges := true; mr_hasConflicts := false |}
           else if String.eqb b remote
           then {| mergeContent := local; hasChanges := true; mr_hasConflicts := false |}
           else {| mergeContent := local; hasChanges := true; mr_hasConflicts := true |}
       | None => {| mergeContent := local; hasChanges := true; mr_hasConflicts := true |}
       end.

Definition env_linux : Env :=
  {| OS := Linux; keybindingsPerPlatform := false; merge := merge_whole |}.

Definition store_base : string := "https://store".

Definition mk_world (server : Server) (file : option FileContent) (last_sync : option string)
  (status : SyncStatus) (preview : option Preview) : World :=
  {| w_store_url := Some store_base; w_token := Some "token"; w_server := server;
     w_enabled := true; w_file := file; w_clock := 1; w_last_sync := last_sync;
     w_preview_file := None; w_status := status; w_preview := preview; w_log := [] |}.

(** The sync content of a keybindings file on Linux, not per platform. *)
Definition linux_sync_content (k : string) : string :=
  stringify (JObj [("all", JStr k); ("linux", JStr k)]).

Definition envelope (content : string) : string :=
  stringify (syncData_json {| version := 1; sd_content := content |}).

Definition checkpoint_file (ref content : string) : string :=
  stringify (JObj [("ref", JStr ref); ("content", JStr (envelope content))]).

Definition local_file (c : string) : option FileContent := Some {| fc_value := c; fc_stamp := 1 |}.

Definition resp (s : Z) (etag : option string) : Response :=
  {| rs_status := s; rs_etag := etag; rs_body := None |}.

(** A remote resource that exists but holds no keybindings content. *)
Definition remote_bare : RemoteUserData := {| rref := "1"; syncData := None |}.

(** Remote write refused with 412, and the re-fetch refused with 412 too. *)
Definition world_412_412 : World :=
  mk_world (Scripted [Some (resp 200 (Some "1")); Some (resp 412 None); Some (resp 412 None)])
    (local_file "[]") None Idle None.

(** Remote write refused with 412, then the re-fetch answered. *)
Definition world_412_200 : World :=
  mk_world (Scripted [Some (resp 412 None); Some (resp 200 (Some "2"))])
    (local_file "[]") None Idle None.

Definition world_answers (ans : list (option Response)) : World :=
  mk_world (Scripted ans) None None Idle None.

(** A checkpoint [1] of [[]] on both sides; another device has since
    pushed [[1]] as revision 2. *)
Definition world_pulled : World :=
  mk_world (Store 2 (Some (envelope (linux_sync_content "[1]")))) (local_file "[]")
    (Some (checkpoint_file "1" (linux_sync_content "[]"))) Idle None.

Definition remote_with (k : string) : RemoteUserData :=
  {| rref := "1"; syncData := Some {| version := 1; sd_content := linux_sync_content k |} |}.

(** The remote holds keybindings for macOS only. *)
Definition world_mac_only : World :=
  mk_world (Store 1 (Some (envelope (stringify (JObj [("mac", JStr "[]")]))))) None None Idle None.

Definition preview_push : Preview :=
  {| p_fileContent := local_file "[1]"; p_remoteUserData := remote_with "[]";
     p_lastSyncUserData := None; p_content := Some "[1]";
     p_hasLocalChanged := false; p_hasRemoteChanged := true; p_hasConflicts := false |}.

Definition world_push : World :=
  mk_world (Store 1 (Some (envelope (linux_sync_content "[]")))) (local_file "[1]") None Syncing
    (Some preview_push).

Definition remote_future : RemoteUserData :=
  {| rref := "1"; syncData := Some {| version := 2; sd_content := "{}" |} |}.

Definition preview_conflict : Preview :=
  {| p_fileContent := local_file "[1]"; p_remoteUserData := remote_with "[2]";
     p_lastSyncUserData := None; p_content := Some "[1]";
     p_hasLocalChanged := true; p_hasRemoteChanged := true; p_hasConflicts := true |}.

Definition world_conflict : World :=
  mk_world (Store 1 (Some (envelope (linux_sync_content "[2]")))) (local_file "[1]") None
    HasConflicts (Some preview_conflict).

(** An empty local keybindings file, never synchronised. *)
Definition world_empty_file : World := mk_world (Store 0 None) (local_file "") None Idle None.

(** The remote holds an empty keybindings content; the local file is not
    valid JSON. *)
Definition world_invalid_local : World :=
  mk_world (Store 1 (Some (envelope (linux_sync_content "")))) (local_file "[") None Idle None.

(** No store url is configured. *)
Definition world_no_url : World :=
  {| w_store_url := None; w_token := Some "token"; w_server := Scripted [];
     w_enabled := true; w_file := None; w_clock := 1; w_last_sync := None;
     w_preview_file := None; w_status := Idle; w_preview := None; w_log := [] |}.

(** A request that already carries an [authorization] header. *)
Definition rq_sample : Request :=
  {| rq_type := "GET"; rq_url := "https://store/resource";
     rq_headers := [("authorization", "x"); ("Cache-Control", "no-cache")]; rq_data := None |}.

(** [m] relates its initial and final worlds by [R], whatever it returns. *)
Definition keeps (R : World -> World -> Prop) {A} (m : M A) : Prop :=
  forall w r w', m w = (r, w') -> R w w'.

(** The relations kept. *)
Definition same_checkpoint (w w' : World) : Prop := w_last_sync w' = w_last_sync w.
Definition same_status (w w' : World) : Prop := w_status w' = w_status w.
Definition no_new_if_match (w w' : World) : Prop :=
  forall ev, In ev (w_log w') -> In ev (w_log w) \/ ~ post_if_match ev.
Definition same_remote_writes (w w' : World) : Prop :=
  remote_writes (w_log w') = remote_writes (w_log w).
Definition same_local_writes (w w' : World) : Prop :=
  local_writes (w_log w') = local_writes (w_log w).



(** [m] completes only with values satisfying [P]. *)
Definition returns {A} (P : A -> Prop) (m : M A) : Prop :=
  forall w a w', m w = (Ok a, w') -> P a.

(* ------------------------------------------------------------------------- *)
(** * Theorems                                                                *)
(* ------------------------------------------------------------------------- *)

(** ** The JSON layer on sample inputs *)

Example json_roundtrip_ex :
  let v := JObj [("version", JNum 1); ("content", JStr (String dq (String bs "x")))] in
  json_parse (stringify v) = Some v.
Proof. reflexivity. Qed.

Example hasErrors_ex :
  hasErrors "[]" = false /\ hasErrors "" = false /\ hasErrors "[" = true
  /\ hasErrors "// c
[ { }, [1, 2,], ]" = false /\ hasErrors "[1 2]" = true.
Proof. vm_compute. repeat split. Qed.

(** ** The JSON layer: [JSON.parse] reads back what [JSON.stringify] writes

    The reader is run on the text of [stringify v] followed by what may come
    after a value ([delim]); strings, numbers, arrays and objects are read
    back in turn, within the fuel [json_parse] grants. Conversely every
    value [json_parse] yields is well formed. *)

Lemma json_wf_arr l : json_wf (JArr l) <-> Forall json_wf l.
Proof.
  simpl. induction l as [|x r IH]; simpl.
  - split; auto.
  - rewrite IH. split; [intros [H1 H2]; constructor; auto | intros H; inversion H; auto].
Qed.

Lemma json_wf_obj kvs :
  json_wf (JObj kvs) <-> NoDup (map fst kvs) /\ Forall (fun kv => json_wf (snd kv)) kvs.
Proof.
  simpl. apply and_iff_compat_l. induction kvs as [|[k x] r IH]; simpl.
  - split; auto.
  - rewrite IH. split; [intros [H1 H2]; constructor; auto | intros H; inversion H; auto].
Qed.

Lemma str_app_nil_r (s : string) : s ++ "" = s.
Proof. induction s as [|c s IH]; simpl; [reflexivity | rewrite IH; reflexivity]. Qed.

Lemma str_app_assoc (a b c : string) : a ++ (b ++ c) = (a ++ b) ++ c.
Proof. induction a as [|x a IH]; simpl; [reflexivity | rewrite IH; reflexivity]. Qed.

Lemma str_app_length (a b : string) : String.length (a ++ b) = (String.length a + String.length b)%nat.
Proof. induction a as [|x a IH]; simpl; [reflexivity | rewrite IH; reflexivity]. Qed.

(** Escaping and reading back one character. *)
Lemma read_string_escape_char c t acc :
  read_string (escape_char c ++ t) acc = read_string t (acc ++ String c "").
Proof.
  destruct c as [[] [] [] [] [] [] [] []]; reflexivity.
Qed.

Lemma read_string_escape s rest acc :
  read_string (escape_string s ++ String dq rest) acc = Some (acc ++ s, rest).
Proof.
  revert acc. induction s as [|c s IH]; intros acc.
  - simpl. rewrite str_app_nil_r. reflexivity.
  - simpl. rewrite <- str_app_assoc, read_string_escape_char, IH.
    rewrite <- str_app_assoc. reflexivity.
Qed.

Lemma digits_of_app fuel z acc rest :
  digits_of fuel z acc ++ rest = digits_of fuel z (acc ++ rest).
Proof.
  revert z acc. induction fuel as [|f IH]; intros z acc; simpl; [reflexivity |].
  destruct (z / 10 =? 0); [reflexivity | apply IH].
Qed.

Lemma digit_char x :
  0 <= x < 10 ->
  is_digit (chr (48 + Z.to_nat x)) = true /\
  Z.of_nat (code (chr (48 + Z.to_nat x)) - 48) = x.
Proof.
  intros Hx. unfold code, chr, is_digit.
  rewrite !nat_ascii_embedding by lia.
  split.
  - apply andb_true_intro; split; apply Nat.leb_le; lia.
  - lia.
Qed.

Lemma read_digits_cons c t a n :
  read_digits (String c t) a n =
  if is_digit c then read_digits t (a * 10 + Z.of_nat (code c - 48)) (S n) else (a, n, String c t).
Proof. reflexivity. Qed.

Lemma digits_of_S f z acc :
  digits_of (S f) z acc =
  if z / 10 =? 0 then String (chr (48 + Z.to_nat (z mod 10))) acc
  else digits_of f (z / 10) (String (chr (48 + Z.to_nat (z mod 10))) acc).
Proof. reflexivity. Qed.

Lemma read_digits_of fuel :
  forall z acc a n,
  0 <= z < 10 ^ Z.of_nat fuel -> (1 <= fuel)%nat ->
  exists k, (1 <= k)%nat /\
    read_digits (digits_of fuel z acc) a n = read_digits acc (a * 10 ^ Z.of_nat k + z) (n + k).
Proof.
  induction fuel as [|f IH]; intros z acc a n Hz Hf; [lia |].
  assert (Hm : 0 <= z mod 10 < 10) by (apply Z.mod_pos_bound; lia).
  destruct (digit_char (z mod 10) Hm) as [Hd Hv].
  rewrite digits_of_S.
  destruct (z / 10 =? 0) eqn:E.
  - exists 1%nat. split; [lia |].
    rewrite read_digits_cons, Hd, Hv.
    apply Z.eqb_eq in E.
    assert (z mod 10 = z) by (rewrite (Z.div_mod z 10) at 2 by lia; lia).
    f_equal; [f_equal; lia | lia].
  - apply Z.eqb_neq in E.
    assert (Hz10 : 0 <= z / 10 < 10 ^ Z.of_nat f).
    { split; [apply Z.div_pos; lia |].
      apply Z.div_lt_upper_bound; [lia |].
      rewrite Nat2Z.inj_succ, Z.pow_succ_r in Hz by lia. lia. }
    assert (Hf' : (1 <= f)%nat).
    { destruct f; [simpl in Hz10; lia | lia]. }
    destruct (IH (z / 10) (String (chr (48 + Z.to_nat (z mod 10))) acc) a n Hz10 Hf')
      as [k [Hk E2]].
    exists (S k). split; [lia |].
    rewrite E2, read_digits_cons, Hd, Hv.
    f_equal; [| lia].
    rewrite Nat2Z.inj_succ, Z.pow_succ_r by lia.
    pose proof (Z.div_mod z 10 ltac:(lia)). lia.
Qed.

Lemma digits_of_head fuel :
  forall z acc,
  0 <= z < 10 ^ Z.of_nat fuel -> (1 <= fuel)%nat ->
  exists d t, digits_of fuel z acc = String (chr (48 + d)) t /\ (d < 10)%nat /\
              (d = 0%nat -> z = 0 /\ t = acc).
Proof.
  induction fuel as [|f IH]; intros z acc Hz Hf; [lia |].
  assert (Hm : 0 <= z mod 10 < 10) by (apply Z.mod_pos_bound; lia).
  rewrite digits_of_S.
  destruct (z / 10 =? 0) eqn:E.
  - apply Z.eqb_eq in E.
    assert (z mod 10 = z) by (rewrite (Z.div_mod z 10) at 2 by lia; lia).
    exists (Z.to_nat (z mod 10)), acc. split; [reflexivity |]. split; [lia |].
    intros H0. split; [lia | reflexivity].
  - apply Z.eqb_neq in E.
    assert (Hz10 : 0 <= z / 10 < 10 ^ Z.of_nat f).
    { split; [apply Z.div_pos; lia |].
      apply Z.div_lt_upper_bound; [lia |].
      rewrite Nat2Z.inj_succ, Z.pow_succ_r in Hz by lia. lia. }
    assert (Hf' : (1 <= f)%nat).
    { destruct f; [simpl in Hz10; lia | lia]. }
    destruct (IH (z / 10) (String (chr (48 + Z.to_nat (z mod 10))) acc) Hz10 Hf')
      as [d [t [E2 [Hd H0]]]].
    exists d, t. split; [exact E2 | split; [exact Hd |]].
    intros Hd0. destruct (H0 Hd0). lia.
Qed.

Lemma show_Z_fuel z :
  0 <= Z.abs z < 10 ^ Z.of_nat (S (Z.to_nat (Z.log2 (Z.abs z)))).
Proof.
  split; [lia |].
  rewrite Nat2Z.inj_succ, Z2Nat.id by apply Z.log2_nonneg.
  destruct (Z.eq_dec z 0) as [->|Hne]; [simpl; lia |].
  destruct (Z.log2_spec (Z.abs z)) as [_ H2]; [lia |].
  eapply Z.lt_le_trans; [exact H2 |].
  apply Z.pow_le_mono_l. split; [lia | lia].
Qed.

Lemma read_digits_delim rest v n :
  delim rest -> read_digits rest v n = (v, n, rest).
Proof.
  intros [-> | [r [-> | [-> | ->]]]]; reflexivity.
Qed.

Lemma read_number_digits fuel z rest :
  0 <= z < 10 ^ Z.of_nat fuel -> (1 <= fuel)%nat -> delim rest ->
  read_number (digits_of fuel z rest) = Some (z, true, rest).
Proof.
  intros Hz Hf Hr.
  destruct (read_digits_of fuel z rest 0 0 Hz Hf) as [k [Hk Ek]].
  rewrite (read_digits_delim rest) in Ek by exact Hr. simpl in Ek.
  destruct (digits_of_head fuel z rest Hz Hf) as [d [t [Eh [Hd H0]]]].
  rewrite Eh in Ek |- *.
  unfold read_number.
  do 10 (destruct d as [|d]; [ simpl in Ek |- *; rewrite Ek;
    try (destruct (H0 eq_refl) as [-> ->]);
    (destruct k as [|k]; [lia |]); simpl;
    destruct Hr as [-> | [r [-> | [-> | ->]]]]; reflexivity | ]).
  lia.
Qed.

Lemma read_number_neg_digits fuel z rest :
  0 <= z < 10 ^ Z.of_nat fuel -> (1 <= fuel)%nat -> delim rest ->
  read_number (String "-" (digits_of fuel z rest)) = Some (- z, true, rest).
Proof.
  intros Hz Hf Hr.
  destruct (read_digits_of fuel z rest 0 0 Hz Hf) as [k [Hk Ek]].
  rewrite (read_digits_delim rest) in Ek by exact Hr. simpl in Ek.
  destruct (digits_of_head fuel z rest Hz Hf) as [d [t [Eh [Hd H0]]]].
  rewrite Eh in Ek |- *.
  unfold read_number.
  do 10 (destruct d as [|d]; [ simpl in Ek |- *; rewrite Ek;
    try (destruct (H0 eq_refl) as [-> ->]);
    (destruct k as [|k]; [lia |]); simpl;
    destruct Hr as [-> | [r [-> | [-> | ->]]]]; reflexivity | ]).
  lia.
Qed.

Lemma show_Z_app z rest :
  show_Z z ++ rest =
  if z <? 0 then String "-" (digits_of (S (Z.to_nat (Z.log2 (Z.abs z)))) (- z) rest)
  else digits_of (S (Z.to_nat (Z.log2 (Z.abs z)))) z rest.
Proof.
  unfold show_Z. destruct (z <? 0); cbn [append]; rewrite digits_of_app; reflexivity.
Qed.

Lemma read_number_show_Z z rest :
  delim rest -> read_number (show_Z z ++ rest) = Some (z, true, rest).
Proof.
  intros Hr. rewrite show_Z_app. pose proof (show_Z_fuel z) as Hf.
  set (N := S (Z.to_nat (Z.log2 (Z.abs z)))) in *.
  destruct (z <? 0) eqn:E.
  - apply Z.ltb_lt in E. replace (Z.abs z) with (- z) in Hf by lia.
    rewrite read_number_neg_digits by (auto; unfold N; lia). rewrite Z.opp_involutive. reflexivity.
  - apply Z.ltb_ge in E. replace (Z.abs z) with z in Hf by lia.
    apply read_number_digits; auto; unfold N; lia.
Qed.

Lemma is_digit_chr d : (d < 10)%nat -> is_digit (chr (48 + d)) = true.
Proof.
  intros Hd. unfold is_digit, code, chr. rewrite nat_ascii_embedding by lia.
  apply andb_true_intro; split; apply Nat.leb_le; lia.
Qed.

Lemma show_Z_head z rest :
  exists c t, show_Z z ++ rest = String c t /\ (is_digit c = true \/ c = "-"%char).
Proof.
  rewrite show_Z_app. pose proof (show_Z_fuel z) as Hf.
  set (N := S (Z.to_nat (Z.log2 (Z.abs z)))) in *.
  destruct (z <? 0) eqn:E.
  - exists "-"%char. eexists. split; [reflexivity | right; reflexivity].
  - apply Z.ltb_ge in E. replace (Z.abs z) with z in Hf by lia.
    destruct (digits_of_head N z rest Hf ltac:(unfold N; lia)) as [d [t [Eh [Hd _]]]].
    rewrite Eh. exists (chr (48 + d)), t. split; [reflexivity | left; apply is_digit_chr; exact Hd].
Qed.

Lemma read_value_number_head f c t :
  is_digit c = true \/ c = "-"%char ->
  read_value false (S f) (String c t) =
  match read_number (String c t) with
  | Some (z, integral, r) => if integral || false then Some (JNum z, r) else None
  | None => None
  end.
Proof.
  intros [H | ->]; [| reflexivity].
  destruct c as [[] [] [] [] [] [] [] []]; try discriminate H; reflexivity.
Qed.

Lemma read_value_show_Z f z rest :
  delim rest -> read_value false (S f) (show_Z z ++ rest) = Some (JNum z, rest).
Proof.
  intros Hr. destruct (show_Z_head z rest) as [c [t [Eh Hc]]].
  rewrite Eh, read_value_number_head by exact Hc. rewrite <- Eh, read_number_show_Z by exact Hr.
  reflexivity.
Qed.

Lemma jsize_arr l : jsize (JArr l) = (2 + list_sum (map (fun x => S (jsize x)) l))%nat.
Proof. simpl. f_equal. f_equal. induction l as [|x r IH]; simpl; [reflexivity | rewrite IH; reflexivity]. Qed.

Lemma jsize_obj kvs :
  jsize (JObj kvs) = (2 + list_sum (map (fun kv => S (jsize (snd kv))) kvs))%nat.
Proof. simpl. f_equal. f_equal. induction kvs as [|[k x] r IH]; simpl; [reflexivity | rewrite IH; reflexivity]. Qed.

Lemma skip_ws_nows c t : is_ws false c = false -> skip_ws false (String c t) = String c t.
Proof. intros H. unfold skip_ws. simpl. rewrite H. reflexivity. Qed.

Lemma read_value_dq f t :
  read_value false (S f) (String dq t) =
  match read_string t "" with Some (x, r') => Some (JStr x, r') | None => None end.
Proof. reflexivity. Qed.

Lemma read_value_arr f t : read_value false (S f) (String "[" t) = read_array false f t [] true.
Proof. reflexivity. Qed.

Lemma read_value_obj f t : read_value false (S f) (String "{" t) = read_object false f t [] true.
Proof. reflexivity. Qed.

Lemma read_array_head f c t acc first :
  is_ws false c = false -> c <> "]"%char ->
  read_array false (S f) (String c t) acc first =
  match read_value false f (String c t) with
  | None => None
  | Some (v, r) =>
      match skip_ws false r with
      | String "," r' => read_array false f r' (v :: acc) false
      | String "]" r' => Some (JArr (rev (v :: acc)), r')
      | _ => None
      end
  end.
Proof.
  intros H1 H2.
  destruct c as [[] [] [] [] [] [] [] []]; try discriminate H1;
    try (exfalso; apply H2; reflexivity); reflexivity.
Qed.

Lemma read_object_head f t acc first :
  read_object false (S f) (String dq t) acc first =
  match read_string t "" with
  | None => None
  | Some (k, r1) =>
      match skip_ws false r1 with
      | String ":" r2 =>
          match read_value false f r2 with
          | None => None
          | Some (v, r3) =>
              match skip_ws false r3 with
              | String "," r' => read_object false f r' (set_prop k v acc) false
              | String "}" r' => Some (JObj (set_prop k v acc), r')
              | _ => None
              end
          end
      | _ => None
      end
  end.
Proof. reflexivity. Qed.

Lemma digit_head c : is_digit c = true -> is_ws false c = false /\ c <> "]"%char.
Proof.
  intros H. destruct c as [[] [] [] [] [] [] [] []]; try discriminate H;
    split; try reflexivity; discriminate.
Qed.

Lemma stringify_head v rest :
  exists c t, stringify v ++ rest = String c t /\ is_ws false c = false /\ c <> "]"%char.
Proof.
  destruct v as [| [] | z | s | l | kvs]; simpl;
    try (eexists; eexists; split; [reflexivity | split; [reflexivity | discriminate]]).
  destruct (show_Z_head z rest) as [c [t [E Hc]]]; exists c, t; rewrite E.
  destruct Hc as [Hc | ->].
  - destruct (digit_head c Hc). auto.
  - split; [reflexivity | split; [reflexivity | discriminate]].
Qed.

Lemma substring_all s m : (String.length s <= m)%nat -> substring 0 m s = s.
Proof.
  revert m. induction s as [|c s IH]; intros m Hm; destruct m as [|m]; simpl in *;
    try reflexivity; try lia.
  rewrite IH by lia. reflexivity.
Qed.

Lemma set_prop_new k v acc : ~ In k (map fst acc) -> set_prop k v acc = (acc ++ [(k, v)])%list.
Proof.
  induction acc as [|[k' v'] r IH]; intros Hn; simpl; [reflexivity |].
  simpl in Hn. destruct (String.eqb_spec k k') as [-> | _]; [exfalso; auto |].
  rewrite IH by auto. reflexivity.
Qed.

Lemma prefix_nil s : String.prefix "" s = true.
Proof. destruct s; reflexivity. Qed.

Lemma delim_comma r : delim (String "," r).
Proof. right. exists r. auto. Qed.
Lemma delim_bracket r : delim (String "]" r).
Proof. right. exists r. auto. Qed.
Lemma delim_brace r : delim (String "}" r).
Proof. right. exists r. auto. Qed.
Lemma delim_empty : delim "".
Proof. left. reflexivity. Qed.

Lemma read_value_stringify v :
  json_wf v -> forall f rest, (jsize v <= f)%nat -> delim rest ->
  read_value false f (stringify v ++ rest) = Some (v, rest).
Proof.
  induction v as [| b | z | s | l IHl | kvs IHk] using jv_rect'; intros Hwf f rest Hf Hr;
    (destruct f as [|f]; [simpl in Hf; try rewrite jsize_arr in Hf; try rewrite jsize_obj in Hf; lia |]).
  - simpl. rewrite substring_all, prefix_nil by lia. reflexivity.
  - destruct b; simpl; rewrite substring_all, prefix_nil by lia; reflexivity.
  - apply read_value_show_Z. exact Hr.
  - unfold stringify, quote. cbn [append].
    rewrite <- str_app_assoc. cbn [append].
    rewrite read_value_dq, read_string_escape. reflexivity.
  - rewrite json_wf_arr in Hwf. rewrite jsize_arr in Hf.
    cbn [stringify append]. rewrite <- str_app_assoc. cbn [append].
    rewrite read_value_arr.
    assert (Hl : forall l acc first f, l <> [] ->
              Forall (fun v => json_wf v -> forall f rest, (jsize v <= f)%nat -> delim rest ->
                        read_value false f (stringify v ++ rest) = Some (v, rest)) l ->
              Forall json_wf l ->
              (list_sum (map (fun x => S (jsize x)) l) <= f)%nat ->
              read_array false f (concat_sep "," (map stringify l) ++ String "]" rest) acc first
              = Some (JArr (rev acc ++ l)%list, rest)).
    { clear. induction l as [|x l IH]; intros acc first f Hne HP Hw Hs; [contradiction |].
      destruct f as [|f]; [simpl in Hs; lia |].
      inversion HP as [|? ? Px HP']; inversion Hw as [|? ? Wx Hw']; subst.
      simpl in Hs.
      destruct l as [|y l].
      - cbn [map concat_sep].
        destruct (stringify_head x (String "]" rest)) as [c [t [E [H1 H2]]]].
        rewrite E, read_array_head by auto. rewrite <- E.
        rewrite Px by (auto using delim_bracket; lia).
        rewrite skip_ws_nows by reflexivity. reflexivity.
      - change (concat_sep "," (map stringify (x :: y :: l)))
          with (stringify x ++ "," ++ concat_sep "," (map stringify (y :: l))).
        rewrite <- str_app_assoc. cbn [append].
        destruct (stringify_head x (String "," (concat_sep "," (map stringify (y :: l)) ++ String "]" rest)))
          as [c [t [E [H1 H2]]]].
        rewrite E, read_array_head by auto. rewrite <- E.
        rewrite Px by (auto using delim_comma; lia).
        rewrite skip_ws_nows by reflexivity. cbv iota beta.
        rewrite IH by (auto; try discriminate; simpl in Hs |- *; lia).
        simpl. rewrite <- app_assoc. reflexivity. }
    destruct l as [|x l].
    + simpl in Hf. destruct f as [|f]; [lia | reflexivity].
    + rewrite Hl by (auto; try discriminate; lia). reflexivity.
  - rewrite json_wf_obj in Hwf. destruct Hwf as [Hnd Hw]. rewrite jsize_obj in Hf.
    cbn [stringify append]. rewrite <- str_app_assoc. cbn [append].
    rewrite read_value_obj.
    assert (Hl : forall kvs acc first f, kvs <> [] ->
              Forall (fun kv => json_wf (snd kv) -> forall f rest, (jsize (snd kv) <= f)%nat ->
                        delim rest ->
                        read_value false f (stringify (snd kv) ++ rest) = Some (snd kv, rest)) kvs ->
              Forall (fun kv => json_wf (snd kv)) kvs ->
              NoDup (map fst (acc ++ kvs)) ->
              (list_sum (map (fun kv => S (jsize (snd kv))) kvs) <= f)%nat ->
              read_object false f
                (concat_sep "," (map (fun kv => quote (fst kv) ++ ":" ++ stringify (snd kv)) kvs)
                 ++ String "}" rest) acc first
              = Some (JObj (acc ++ kvs)%list, rest)).
    { clear. induction kvs as [|[k x] kvs IH]; intros acc first f Hne HP Hw Hnd Hs; [contradiction |].
      destruct f as [|f]; [simpl in Hs; lia |].
      inversion HP as [|? ? Px HP']; inversion Hw as [|? ? Wx Hw']; subst. simpl in Px, Wx, Hs.
      assert (Hk : ~ In k (map fst acc)).
      { rewrite map_app in Hnd. simpl in Hnd. apply NoDup_remove_2 in Hnd.
        intros Hin. apply Hnd. apply in_or_app. left. exact Hin. }
      assert (Hnd' : NoDup (map fst ((acc ++ [(k, x)]) ++ kvs))) by (rewrite <- app_assoc; exact Hnd).
      destruct kvs as [|[k' y] kvs].
      - change (concat_sep "," (map (fun kv => quote (fst kv) ++ ":" ++ stringify (snd kv)) [(k, x)]))
          with (quote k ++ ":" ++ stringify x).
        unfold quote. cbn [append]. rewrite <- !str_app_assoc. cbn [append].
        rewrite read_object_head, read_string_escape, skip_ws_nows by reflexivity. cbv iota beta.
        rewrite Px by (auto using delim_brace; lia).
        rewrite skip_ws_nows by reflexivity. cbv iota beta.
        rewrite set_prop_new by exact Hk. reflexivity.
      - set (g := fun kv : string * jv => quote (fst kv) ++ ":" ++ stringify (snd kv)).
        change (concat_sep "," (map g ((k, x) :: (k', y) :: kvs)))
          with (g (k, x) ++ "," ++ concat_sep "," (map g ((k', y) :: kvs))).
        unfold g at 1. cbn [fst snd].
        unfold quote at 1. cbn [append]. rewrite <- !str_app_assoc. cbn [append].
        rewrite read_object_head, read_string_escape, skip_ws_nows by reflexivity. cbv iota beta.
        rewrite Px by (auto using delim_comma; lia).
        rewrite skip_ws_nows by reflexivity. cbv iota beta.
        rewrite set_prop_new by exact Hk.
        unfold g. rewrite IH by (auto; try discriminate; simpl in Hs |- *; lia).
        rewrite <- app_assoc. reflexivity. }
    destruct kvs as [|kv kvs].
    + simpl in Hf. destruct f as [|f]; [lia | reflexivity].
    + rewrite Hl by (auto; try discriminate; lia). reflexivity.
Qed.

Lemma list_sum_map_le {A} (f g : A -> nat) l :
  Forall (fun a => (f a <= g a)%nat) l -> (list_sum (map f l) <= list_sum (map g l))%nat.
Proof. induction 1; simpl; lia. Qed.

Lemma list_sum_map_double {A} (h : A -> nat) l :
  list_sum (map (fun a => 2 * h a)%nat l) = (2 * list_sum (map h l))%nat.
Proof. induction l; simpl in *; lia. Qed.

Lemma concat_sep_length l :
  (list_sum (map (fun s => S (String.length s)) l) <= String.length (concat_sep "," l) + 1)%nat.
Proof.
  induction l as [|x [|y r] IH]; simpl in *; try lia.
  rewrite !str_app_length in *. simpl in *. lia.
Qed.

Lemma quote_length s : (2 <= String.length (quote s))%nat.
Proof. unfold quote. simpl. rewrite str_app_length. simpl. lia. Qed.

Lemma jsize_length v : (jsize v <= 2 * String.length (stringify v))%nat.
Proof.
  induction v as [| b | z | s | l IHl | kvs IHk] using jv_rect'.
  - simpl. lia.
  - destruct b; simpl; lia.
  - destruct (show_Z_head z "") as [c [t [E _]]]. rewrite str_app_nil_r in E.
    simpl. rewrite E. simpl. lia.
  - pose proof (quote_length s). simpl. lia.
  - rewrite jsize_arr. cbn [stringify]. rewrite !str_app_length. simpl.
    pose proof (concat_sep_length (map stringify l)) as Hc. rewrite map_map in Hc.
    assert (H : (list_sum (map (fun x => S (jsize x)) l)
                 <= list_sum (map (fun x => 2 * S (String.length (stringify x))) l))%nat).
    { apply list_sum_map_le. eapply Forall_impl; [| exact IHl]. simpl. intros a Ha. lia. }
    rewrite list_sum_map_double in H. lia.
  - rewrite jsize_obj. cbn [stringify]. rewrite !str_app_length. simpl.
    pose proof (concat_sep_length (map (fun kv => quote (fst kv) ++ ":" ++ stringify (snd kv)) kvs))
      as Hc.
    rewrite map_map in Hc.
    assert (H : (list_sum (map (fun kv => S (jsize (snd kv))) kvs)
                 <= list_sum (map (fun kv => 2 * S (String.length
                      (quote (fst kv) ++ ":" ++ stringify (snd kv)))) kvs))%nat).
    { apply list_sum_map_le. eapply Forall_impl; [| exact IHk]. simpl. intros a Ha.
      rewrite !str_app_length. simpl. lia. }
    rewrite list_sum_map_double in H. simpl in *. lia.
Qed.

Theorem json_parse_stringify v : json_wf v -> json_parse (stringify v) = Some v.
Proof.
  intros Hw. unfold json_parse.
  rewrite <- (str_app_nil_r (stringify v)) at 2.
  rewrite read_value_stringify by (auto using delim_empty; pose proof (jsize_length v); lia).
  reflexivity.
Qed.

Lemma read_value_unfold j f s :
  read_value j (S f) s =
  match skip_ws j s with
  | String c r =>
      if Ascii.eqb c "[" then read_array j f r [] true
      else if Ascii.eqb c "{" then read_object j f r [] true
      else if Ascii.eqb c dq then
        match read_string r "" with Some (x, r') => Some (JStr x, r') | None => None end
      else if starts_with "true" (String c r) then Some (JBool true, substring 4 (String.length (String c r)) (String c r))
      else if starts_with "false" (String c r) then Some (JBool false, substring 5 (String.length (String c r)) (String c r))
      else if starts_with "null" (String c r) then Some (JNull, substring 4 (String.length (String c r)) (String c r))
      else
        match read_number (String c r) with
        | Some (z, integral, r) => if integral || j then Some (JNum z, r) else None
        | None => None
        end
  | EmptyString => None
  end.
Proof.
  simpl. destruct (skip_ws j s) as [|c r]; [reflexivity |].
  destruct c as [[] [] [] [] [] [] [] []]; reflexivity.
Qed.

Lemma after_value_unfold {A} (s : string) (kc kb : string -> A) (d : A) :
  match s with
  | String "," r' => kc r'
  | String "]" r' => kb r'
  | _ => d
  end =
  match s with
  | String c r' => if Ascii.eqb c "," then kc r' else if Ascii.eqb c "]" then kb r' else d
  | EmptyString => d
  end.
Proof. destruct s as [|c r]; [reflexivity |]. destruct c as [[] [] [] [] [] [] [] []]; reflexivity. Qed.

Lemma after_member_unfold {A} (s : string) (kc kb : string -> A) (d : A) :
  match s with
  | String "," r' => kc r'
  | String "}" r' => kb r'
  | _ => d
  end =
  match s with
  | String c r' => if Ascii.eqb c "," then kc r' else if Ascii.eqb c "}" then kb r' else d
  | EmptyString => d
  end.
Proof. destruct s as [|c r]; [reflexivity |]. destruct c as [[] [] [] [] [] [] [] []]; reflexivity. Qed.

Lemma colon_unfold {A} (s : string) (k : string -> A) (d : A) :
  match s with
  | String ":" r' => k r'
  | _ => d
  end =
  match s with
  | String c r' => if Ascii.eqb c ":" then k r' else d
  | EmptyString => d
  end.
Proof. destruct s as [|c r]; [reflexivity |]. destruct c as [[] [] [] [] [] [] [] []]; reflexivity. Qed.

Lemma read_array_unfold j f s acc first :
  read_array j (S f) s acc first =
  match skip_ws j s with
  | String c r =>
      if Ascii.eqb c "]" then (if first || j then Some (JArr (rev acc), r) else None)
      else
        match read_value j f (String c r) with
        | None => None
        | Some (v, r) =>
            match skip_ws j r with
            | String "," r' => read_array j f r' (v :: acc) false
            | String "]" r' => Some (JArr (rev (v :: acc)), r')
            | _ => None
            end
        end
  | EmptyString =>
      match read_value j f EmptyString with
      | None => None
      | Some (v, r) =>
          match skip_ws j r with
          | String "," r' => read_array j f r' (v :: acc) false
          | String "]" r' => Some (JArr (rev (v :: acc)), r')
          | _ => None
          end
      end
  end.
Proof.
  simpl. destruct (skip_ws j s) as [|c r]; [reflexivity |].
  destruct c as [[] [] [] [] [] [] [] []]; reflexivity.
Qed.

Lemma read_object_unfold j f s acc first :
  read_object j (S f) s acc first =
  match skip_ws j s with
  | String c r =>
      if Ascii.eqb c "}" then (if first || j then Some (JObj acc, r) else None)
      else if negb (Ascii.eqb c dq) then None else
      match read_string r "" with
      | None => None
      | Some (k, r1) =>
          match skip_ws j r1 with
          | String ":" r2 =>
              match read_value j f r2 with
              | None => None
              | Some (v, r3) =>
                  match skip_ws j r3 with
                  | String "," r' => read_object j f r' (set_prop k v acc) false
                  | String "}" r' => Some (JObj (set_prop k v acc), r')
                  | _ => None
                  end
              end
          | _ => None
          end
      end
  | EmptyString => None
  end.
Proof.
  simpl. destruct (skip_ws j s) as [|c r]; [reflexivity |].
  destruct c as [[] [] [] [] [] [] [] []]; reflexivity.
Qed.

Lemma set_prop_keys_in k v acc x :
  In x (map fst (set_prop k v acc)) -> x = k \/ In x (map fst acc).
Proof.
  induction acc as [|[k' v'] r IH]; simpl; [intuition |].
  destruct (String.eqb k k'); simpl; intuition.
Qed.

Lemma set_prop_nodup k v acc : NoDup (map fst acc) -> NoDup (map fst (set_prop k v acc)).
Proof.
  induction acc as [|[k' v'] r IH]; intros Hnd; simpl; [constructor; [intuition | constructor] |].
  simpl in Hnd. inversion Hnd as [|? ? Hn Hnd']; subst.
  destruct (String.eqb_spec k k') as [-> | Hne]; simpl; [exact Hnd |].
  constructor; [| auto].
  intros Hin. destruct (set_prop_keys_in _ _ _ _ Hin) as [-> | H]; [apply Hne; reflexivity | auto].
Qed.

Lemma set_prop_forall (P : jv -> Prop) k v acc :
  P v -> Forall (fun kv => P (snd kv)) acc -> Forall (fun kv => P (snd kv)) (set_prop k v acc).
Proof.
  intros Hv. induction 1 as [|[k' v'] r Hx Hr IH]; simpl; [constructor; auto |].
  destruct (String.eqb k k'); constructor; auto.
Qed.

Lemma read_wf j f :
  (forall s v r, read_value j f s = Some (v, r) -> json_wf v) /\
  (forall s acc first v r, Forall json_wf acc -> read_array j f s acc first = Some (v, r) -> json_wf v) /\
  (forall s acc first v r, NoDup (map fst acc) -> Forall (fun kv => json_wf (snd kv)) acc ->
     read_object j f s acc first = Some (v, r) -> json_wf v).
Proof.
  induction f as [|f [IH1 [IH2 IH3]]].
  { split; [| split]; intros; discriminate. }
  split; [| split].
  - intros s v r H. rewrite read_value_unfold in H.
    destruct (skip_ws j s) as [|c t]; [discriminate |].
    destruct (Ascii.eqb c "["); [exact (IH2 _ [] _ _ _ (Forall_nil _) H) |].
    destruct (Ascii.eqb c "{"); [exact (IH3 _ [] _ _ _ (NoDup_nil _) (Forall_nil _) H) |].
    destruct (Ascii.eqb c dq).
    { destruct (read_string t "") as [[x r']|]; inversion H; exact I. }
    destruct (starts_with "true" (String c t)); [inversion H; exact I |].
    destruct (starts_with "false" (String c t)); [inversion H; exact I |].
    destruct (starts_with "null" (String c t)); [inversion H; exact I |].
    destruct (read_number (String c t)) as [[[z i] r']|]; [| discriminate].
    destruct (i || j); inversion H; exact I.
  - intros s acc first v r Hacc H. rewrite read_array_unfold in H.
    assert (Hk : forall s', match read_value j f s' with
             | None => None
             | Some (v, r) =>
                 match skip_ws j r with
                 | String "," r' => read_array j f r' (v :: acc) false
                 | String "]" r' => Some (JArr (rev (v :: acc)), r')
                 | _ => None
                 end
             end = Some (v, r) -> json_wf v).
    { intros s' H'. destruct (read_value j f s') as [[v' r']|] eqn:E; [| discriminate].
      pose proof (IH1 _ _ _ E) as Hv'.
      rewrite after_value_unfold in H'.
      destruct (skip_ws j r') as [|c r'']; [discriminate |].
      destruct (Ascii.eqb c ",").
      - eapply IH2; [constructor; eauto | exact H'].
      - destruct (Ascii.eqb c "]"); [| discriminate].
        inversion H'. apply json_wf_arr. change (Forall json_wf (rev (v' :: acc))). apply Forall_rev. constructor; auto. }
    destruct (skip_ws j s) as [|c t]; [exact (Hk _ H) |].
    destruct (Ascii.eqb c "]"); [| exact (Hk _ H)].
    destruct (first || j); inversion H. apply json_wf_arr. apply Forall_rev. exact Hacc.
  - intros s acc first v r Hnd Hacc H. rewrite read_object_unfold in H.
    destruct (skip_ws j s) as [|c t]; [discriminate |].
    destruct (Ascii.eqb c "}").
    { destruct (first || j); inversion H. apply json_wf_obj. auto. }
    destruct (negb (Ascii.eqb c dq)); [discriminate |].
    destruct (read_string t "") as [[k r1]|]; [| discriminate].
    rewrite colon_unfold in H.
    destruct (skip_ws j r1) as [|c1 r2]; [discriminate |].
    destruct (Ascii.eqb c1 ":"); [| discriminate].
    destruct (read_value j f r2) as [[v' r3]|] eqn:E; [| discriminate].
    pose proof (IH1 _ _ _ E) as Hv'.
    rewrite after_member_unfold in H.
    destruct (skip_ws j r3) as [|c3 r4]; [discriminate |].
    destruct (Ascii.eqb c3 ",").
    + exact (IH3 _ _ _ _ _ (set_prop_nodup _ _ _ Hnd) (set_prop_forall _ _ _ _ Hv' Hacc) H).
    + destruct (Ascii.eqb c3 "}"); [| discriminate].
      inversion H. apply json_wf_obj. split; [apply set_prop_nodup; exact Hnd | apply set_prop_forall; auto].
Qed.

Lemma json_parse_wf s v : json_parse s = Some v -> json_wf v.
Proof.
  unfold json_parse. intros H.
  destruct (read_value false _ s) as [[v' r]|] eqn:E; [| discriminate].
  destruct (skip_ws false r); [| discriminate]. inversion H; subst.
  exact (proj1 (read_wf false _) _ _ _ E).
Qed.

(** ** Frame reasoning: what a computation leaves unchanged *)

Section Frame.

Variable R : World -> World -> Prop.
Context `{PreOrder World R}.

Lemma keeps_ret {A} (a : A) : keeps R (ret a).
Proof. intros w r w' E. inversion E. reflexivity. Qed.

Lemma keeps_throw {A} (e : Exn) : keeps R (A := A) (throw e).
Proof. intros w r w' E. inversion E. reflexivity. Qed.

Lemma keeps_out_of_fuel {A} : keeps R (A := A) out_of_fuel.
Proof. intros w r w' E. inversion E. reflexivity. Qed.

Lemma keeps_get : keeps R get.
Proof. intros w r w' E. inversion E. reflexivity. Qed.

Lemma keeps_modify f : (forall w, R w (f w)) -> keeps R (modify f).
Proof. intros Hf w r w' E. inversion E. apply Hf. Qed.

Lemma keeps_serve rq : (forall w s, R w (set_server s w)) -> keeps R (serve rq).
Proof.
  intros Hs w r w' E. unfold serve in E.
  destruct (w_server w) as [[|a l]|rev c].
  - inversion E. reflexivity.
  - inversion E. apply Hs.
  - destruct (store_answer _ rev c rq). inversion E. apply Hs.
Qed.

Lemma keeps_bind {A B} (m : M A) (k : A -> M B) :
  keeps R m -> (forall a, keeps R (k a)) -> keeps R (bind m k).
Proof.
  intros Hm Hk w r w' E. unfold bind in E.
  destruct (m w) as [[a|e|] w1] eqn:Em; apply Hm in Em.
  - etransitivity; [exact Em | exact (Hk a _ _ _ E)].
  - inversion E; subst; exact Em.
  - inversion E; subst; exact Em.
Qed.

Lemma keeps_catch {A} (m : M A) (h : Exn -> M A) :
  keeps R m -> (forall e, keeps R (h e)) -> keeps R (catch m h).
Proof.
  intros Hm Hh w r w' E. unfold catch in E.
  destruct (m w) as [[a|e|] w1] eqn:Em; apply Hm in Em.
  - inversion E; subst; exact Em.
  - etransitivity; [exact Em | exact (Hh e _ _ _ E)].
  - inversion E; subst; exact Em.
Qed.

End Frame.

Ltac frame_step :=
  match goal with
  | |- keeps ?R (bind _ _) => apply (keeps_bind R); [ | intros ? ]
  | |- keeps ?R (catch _ _) => apply (keeps_catch R); [ | intros ? ]
  | |- keeps ?R (ret _) => apply (keeps_ret R)
  | |- keeps ?R (throw _) => apply (keeps_throw R)
  | |- keeps ?R out_of_fuel => apply (keeps_out_of_fuel R)
  | |- keeps ?R get => apply (keeps_get R)
  | |- keeps ?R (modify _) => apply (keeps_modify R); intros ?
  | |- keeps ?R (serve _) => apply (keeps_serve R); intros ? ?
  | |- keeps _ (emit _) => unfold emit
  | |- keeps _ (let _ := _ in _) => cbv zeta
  | |- keeps _ (match ?x with _ => _ end) => destruct x
  | |- keeps _ (if ?b then _ else _) => destruct b
  end.

#[export] Instance same_checkpoint_preorder : PreOrder same_checkpoint.
Proof. split; [intros w; reflexivity | intros a b c E1 E2; unfold same_checkpoint in *; congruence]. Qed.

#[export] Instance same_status_preorder : PreOrder same_status.
Proof. split; [intros w; reflexivity | intros a b c E1 E2; unfold same_status in *; congruence]. Qed.

#[export] Instance no_new_if_match_preorder : PreOrder no_new_if_match.
Proof.
  split; [intros w ev Hin; left; exact Hin |].
  intros a b c E1 E2 ev Hin. destruct (E2 ev Hin) as [Hb|Hn]; [exact (E1 ev Hb) | right; exact Hn].
Qed.

Ltac new_event_leaf :=
  let ev := fresh "ev" in let Hin := fresh "Hin" in
  intros ev Hin; simpl in Hin;
  first
    [ left; exact Hin
    | destruct Hin as [<- | Hin];
      [ right; let Hp := fresh "Hp" in intros Hp;
        first [ exact Hp
              | destruct Hp as [Ht Hh]; simpl in Ht, Hh;
                first [ discriminate Ht | apply Hh; reflexivity ] ]
      | left; exact Hin ] ].

(** The remote and local writes of [apply] leave the checkpoint file alone. *)
Lemma applyChanges_same_checkpoint env p fp : keeps same_checkpoint (applyChanges env p fp).
Proof.
  unfold applyChanges, toSyncContent, backupLocal, updateLocalFileContent, write_local,
    updateRemoteUserData, write, request, deletePreviewFile, no_store_url.
  repeat frame_step; reflexivity.
Qed.

(** [apply] never changes the status. *)
Lemma apply_same_status env fp : keeps same_status (apply env fp).
Proof.
  unfold apply, applyChanges, applyCheckpoint, updateLastSyncUserData, toSyncContent,
    backupLocal, updateLocalFileContent, write_local, updateRemoteUserData, write, request,
    deletePreviewFile, no_store_url.
  repeat frame_step; reflexivity.
Qed.

(** Every request [accept] issues is free of an [If-Match] precondition. *)
Lemma accept_no_if_match env c : keeps no_new_if_match (accept env c).
Proof.
  unfold accept, setStatus, apply, applyChanges, applyCheckpoint, updateLastSyncUserData,
    toSyncContent, backupLocal, updateLocalFileContent, write_local, updateRemoteUserData,
    write, request, deletePreviewFile, no_store_url.
  repeat frame_step; new_event_leaf.
Qed.

(** ** Error propagation of [doSync] *)

(** An error [RemotePreconditionFailed] that leaves [doSync] is one the
    re-fetch [getRemoteUserData(null)] raised, after a [performSync] that
    raised it. *)
Lemma doSync_precondition_origin v perf fuel remote last w w' :
  doSync v perf fuel remote last w = (Err (SyncError RemotePreconditionFailed), w') ->
  exists remote0 w0 w1,
    perf remote0 last w0 = (Err (SyncError RemotePreconditionFailed), w1) /\
    getRemoteUserData v None w1 = (Err (SyncError RemotePreconditionFailed), w').
Proof.
  revert remote w. induction fuel as [|f IH]; intros remote w E; simpl in E;
    (destruct (match syncData remote with Some sd => v <? version sd | None => false end);
     [discriminate E |]);
    unfold catch in E; destruct (perf remote last w) as [[a|e|] w1] eqn:Ep;
    try discriminate E;
    destruct e as [[] | msg]; cbv [out_of_fuel throw] in E; try (inversion E; fail).
  unfold bind in E. destruct (getRemoteUserData v None w1) as [[r|e|] w2] eqn:Eg.
  - destruct (IH r w2 E) as (remote0 & w0 & w3 & H1 & H2). eauto.
  - inversion E; subst. exists remote, w, w1. split; [exact Ep | exact Eg].
  - discriminate E.
Qed.

(** C6: [sync()] returns at once, with the world unchanged (no request, no
    write, no checkpoint or status change), when the resource is disabled,
    already [Syncing] or in [HasConflicts]. *)
Theorem sync_noop v perf fuel ref w :
  w_enabled w = false \/ w_status w = Syncing \/ w_status w = HasConflicts ->
  sync v perf fuel ref w = (Ok tt, w).
Proof.
  intros H. unfold sync, bind, get.
  destruct H as [H | [H | H]]; rewrite H; [reflexivity | |];
    destruct (w_enabled w); reflexivity.
Qed.

Lemma sync_noop_witness :
  sync kb_version (performSync env_linux 1) 1 None world_conflict = (Ok tt, world_conflict).
Proof. apply sync_noop. right. right. reflexivity. Defined.

(** C7: when the remote sync data carries a version above the engine's own,
    [doSync] fails with [Incompatible] before [performSync] runs: the world,
    and so the log of merges, writes and checkpoints, is unchanged. *)
Theorem doSync_incompatible v perf fuel remote last w sd :
  syncData remote = Some sd -> v < version sd ->
  doSync v perf fuel remote last w = (Err (SyncError Incompatible), w).
Proof.
  intros Hsd Hlt. apply Z.ltb_lt in Hlt.
  destruct fuel; simpl; rewrite Hsd, Hlt; reflexivity.
Qed.

Lemma doSync_incompatible_witness :
  doSync kb_version (performSync env_linux 1) 1 remote_future None world_push
  = (Err (SyncError Incompatible), world_push).
Proof.
  apply (doSync_incompatible kb_version (performSync env_linux 1) 1 remote_future None world_push
           {| version := 2; sd_content := "{}" |}); [reflexivity | vm_compute; reflexivity].
Defined.

(** C1 (amended): when the version check passes and [performSync] raises
    [RemotePreconditionFailed], [doSync] with fuel left re-fetches the remote
    data with no last-sync data and recurses on the fresh snapshot; an error
    [RemotePreconditionFailed] that still leaves [doSync] was raised by such a
    re-fetch. *)
Theorem doSync_precondition_retry :
  (forall v perf fuel remote last w w1,
     match syncData remote with Some sd => v <? version sd | None => false end = false ->
     perf remote last w = (Err (SyncError RemotePreconditionFailed), w1) ->
     doSync v perf (S fuel) remote last w
     = (r <- getRemoteUserData v None;; doSync v perf fuel r last) w1) /\
  (forall v perf fuel remote last w w',
     doSync v perf fuel remote last w = (Err (SyncError RemotePreconditionFailed), w') ->
     exists remote0 w0 w1,
       perf remote0 last w0 = (Err (SyncError RemotePreconditionFailed), w1) /\
       getRemoteUserData v None w1 = (Err (SyncError RemotePreconditionFailed), w')).
Proof.
  split.
  - intros v perf fuel remote last w w1 Hc Hp. simpl. rewrite Hc. unfold catch. rewrite Hp.
    reflexivity.
  - exact doSync_precondition_origin.
Qed.

Lemma doSync_precondition_retry_witness :
  doSync kb_version (performSync env_linux 0) 1 remote_bare None world_412_200
  = (r <- getRemoteUserData kb_version None;; doSync kb_version (performSync env_linux 0) 0 r None)
      (snd (performSync env_linux 0 remote_bare None world_412_200)).
Proof.
  apply (proj1 doSync_precondition_retry); [reflexivity | vm_compute; reflexivity].
Defined.

(** C1: a remote write refused with 412 whose re-fetch is refused with 412
    too: [RemotePreconditionFailed] reaches the caller of [sync]. *)
Lemma sync_precondition_escapes :
  fst (kb_sync env_linux 1 None world_412_412) = Err (SyncError RemotePreconditionFailed).
Proof. vm_compute. reflexivity. Qed.

(** ** The store client's error mapping *)





















(** ** Concrete runs of [sync] *)

(** C3: pulling another device's [[1]] over a local [[]]: [apply] snapshots
    to the Local Backup Store the envelope of the merged content [[1]], not
    the content [[]] the local file held before the write. *)
Theorem apply_backs_up_merged_content :
  w_file world_pulled = local_file "[]" /\
  fst (kb_sync env_linux 1 None world_pulled) = Ok tt /\
  local_writes (w_log (snd (kb_sync env_linux 1 None world_pulled))) = ["[1]"] /\
  backups (w_log (snd (kb_sync env_linux 1 None world_pulled)))
  = [envelope (linux_sync_content "[1]")].
Proof. repeat split; vm_compute; reflexivity. Qed.

(** C9: an empty local keybindings file. The first [sync()] pushes it and
    records checkpoint 1; with nothing changed on either side, a second
    [sync()] pushes again and moves the checkpoint to 2. *)
Theorem second_sync_pushes_again :
  let w1 := snd (kb_sync env_linux 1 None world_empty_file) in
  let w2 := snd (kb_sync env_linux 1 None w1) in
  fst (kb_sync env_linux 1 None world_empty_file) = Ok tt /\
  fst (kb_sync env_linux 1 None w1) = Ok tt /\
  w_file w2 = w_file w1 /\
  w_last_sync w1 = Some (checkpoint_file "1" (linux_sync_content "")) /\
  w_last_sync w2 = Some (checkpoint_file "2" (linux_sync_content "")) /\
  List.length (remote_writes (w_log w2)) = S (List.length (remote_writes (w_log w1))).
Proof. repeat split; vm_compute; reflexivity. Qed.

(** ** The merge decision of [generatePreview] *)

Lemma opt_str_eqb_spec a b : opt_str_eqb a b = true <-> a = b.
Proof.
  destruct a as [x|], b as [y|]; simpl; try (split; congruence).
  rewrite String.eqb_eq. split; congruence.
Qed.

(** With a non-empty remote content, the code's test [!lastSync ||
    lastSync !== local || lastSync !== remote] fails exactly when the
    last-sync content equals both sides. *)
Lemma merge_test_false base local rc :
  rc <> "" ->
  (negb (truthy base) || negb (opt_str_eqb base (Some local))
   || negb (opt_str_eqb base (Some rc)) = false <-> base = Some local /\ base = Some rc).
Proof.
  intros Hrc. rewrite !orb_false_iff, !negb_false_iff, !opt_str_eqb_spec.
  split; [intros [[_ H1] H2]; split; assumption |].
  intros [H1 H2]. subst base. injection H2 as <-.
  split; [split; [destruct local as [|c s]; [congruence | reflexivity] | reflexivity] | reflexivity].
Qed.

(** C4 (amended): when the remote content is a non-empty string and the
    local content passes validation, [generatePreview] calls the Merge
    Engine with [(local, remote, lastSync)] exactly when the last-sync
    content is absent or differs from one side; with no call, or with a
    result reporting no changes, the candidate content is [null] and the
    three flags are false; otherwise the content is the merge result,
    [hasConflicts] the merge's flag, and [hasLocalChanged]
    ([hasRemoteChanged]) holds iff [hasConflicts] or the merged content
    differs from the local (remote) content. *)
Theorem generatePreview_merge env remote last w rc :
  remoteContentOf env remote = Some rc -> rc <> "" ->
  hasErrors (localContentOf (w_file w)) = false ->
  let local := localContentOf (w_file w) in
  let base := lastSyncContentOf env last in
  let res := merge env local rc base in
  exists p w', generatePreview env remote last w = (Ok p, w') /\
    ((base = None \/ base <> Some local \/ base <> Some rc) ->
     merges (w_log w') = (local, rc, base) :: merges (w_log w) /\
     (hasChanges res = false ->
      p_content p = None /\ p_hasLocalChanged p = false /\
      p_hasRemoteChanged p = false /\ p_hasConflicts p = false) /\
     (hasChanges res = true ->
      p_content p = Some (mergeContent res) /\ p_hasConflicts p = mr_hasConflicts res /\
      (p_hasLocalChanged p = true <-> mr_hasConflicts res = true \/ mergeContent res <> local) /\
      (p_hasRemoteChanged p = true <-> mr_hasConflicts res = true \/ mergeContent res <> rc))) /\
    (base = Some local -> base = Some rc ->
     merges (w_log w') = merges (w_log w) /\
     p_content p = None /\ p_hasLocalChanged p = false /\
     p_hasRemoteChanged p = false /\ p_hasConflicts p = false).
Proof.
  intros Hr Hrc Hv local base res.
  assert (Ht : truthy (Some rc) = true) by (destruct rc; [congruence | reflexivity]).
  cbv [generatePreview getLocalFileContent mergeStep bind get ret emit modify writePreviewFile].
  rewrite Hr, Ht, Hv. fold local base. fold res.
  assert (Hiff : forall b x, b || negb (x =? local)%string = true <-> b = true \/ x <> local)
    by (intros b x; rewrite orb_true_iff, negb_true_iff, String.eqb_neq; tauto).
  assert (Hiff' : forall b x, b || negb (x =? rc)%string = true <-> b = true \/ x <> rc)
    by (intros b x; rewrite orb_true_iff, negb_true_iff, String.eqb_neq; tauto).
  destruct (negb (truthy base) || negb (opt_str_eqb base (Some local))
            || negb (opt_str_eqb base (Some rc))) eqn:Hc.
  - assert (Hn : ~ (base = Some local /\ base = Some rc))
      by (intros Hb; apply (merge_test_false _ _ _ Hrc) in Hb; congruence).
    destruct (hasChanges res) eqn:Hch; cbv beta iota zeta.
    + destruct (truthy (Some (mergeContent res))); cbv beta iota zeta;
        do 2 eexists; (split; [reflexivity |]);
        (split; [| intros H1 H2; exfalso; exact (Hn (conj H1 H2))]);
        intros _; (split; [reflexivity |]);
        (split; [intros E; discriminate E |]);
        intros _; (split; [reflexivity | split; [reflexivity | split; [apply Hiff | apply Hiff']]]).
    + do 2 eexists; (split; [reflexivity |]).
      split; [| intros H1 H2; exfalso; exact (Hn (conj H1 H2))].
      intros _. split; [reflexivity |]. split; [intros _; repeat split | intros E; discriminate E].
  - apply (merge_test_false _ _ _ Hrc) in Hc. destruct Hc as [H1 H2]. simpl.
    do 2 eexists; (split; [reflexivity |]).
    split; [| intros _ _; repeat split].
    intros [H | [H | H]]; exfalso; congruence.
Qed.


Lemma generatePreview_merge_witness :
  merges (w_log (snd (generatePreview env_linux (remote_with "[1]") None world_pulled)))
  = [("[]", "[1]", None)].
Proof.
  destruct (generatePreview_merge env_linux (remote_with "[1]") None world_pulled "[1]")
    as (p & w' & E & H1 & _);
    [vm_compute; reflexivity | discriminate | vm_compute; reflexivity |].
  rewrite E. destruct (H1 (or_introl eq_refl)) as [Hm _]. simpl. rewrite Hm.
  vm_compute. reflexivity.
Defined.

(** C4: two runs with a remote content that exists but makes no merge: an
    empty remote content with no last-sync data (the code tests its
    truthiness), and a local file that fails validation (the run stops with
    [LocalInvalidContent]). *)
Lemma generatePreview_no_merge_cases :
  remoteContentOf env_linux (remote_with "") = Some "" /\
  lastSyncContentOf env_linux None = None /\
  merges (w_log (snd (generatePreview env_linux (remote_with "") None world_pulled))) = [] /\
  fst (generatePreview env_linux (remote_with "[1]") None world_invalid_local)
  = Err (SyncError LocalInvalidContent) /\
  merges (w_log (snd (generatePreview env_linux (remote_with "[1]") None world_invalid_local)))
  = [].
Proof. repeat split; vm_compute; reflexivity. Qed.

(** ** The checkpoint step of [apply] *)

(** [toSyncContent] is pure. *)
Lemma toSyncContent_world env k s w : snd (toSyncContent env k s w) = w.
Proof.
  unfold toSyncContent. cbv zeta.
  destruct (match json_parse _ with Some v => v | None => JObj [] end); reflexivity.
Qed.

(** C5 (amended): let [r] be the remote data after the writes of a
    completed [apply] (the new ref when it wrote the remote, the preview's
    remote data otherwise). The checkpoint is rewritten exactly when the
    last-sync ref differs from [r]'s ref and the preview carries candidate
    content or local file content; it then holds [r]'s ref, [r]'s version and
    the sync content of that candidate or file content. Otherwise the
    checkpoint file is left as it was. *)
Theorem apply_checkpoint env fp w p w' :
  w_preview w = Some p -> apply env fp w = (Ok tt, w') ->
  exists r w1, applyChanges env p fp w = (Ok r, w1) /\
   ((lastRefOf p <> Some (rref r) /\ (p_content p <> None \/ p_fileContent p <> None) /\
     exists sd c, syncData r = Some sd /\
       toSyncContent env (checkpointContentOf p) None w1 = (Ok c, w1) /\
       w_last_sync w' =
       Some (stringify (JObj [("ref", JStr (rref r));
                              ("content", JStr (stringify (syncData_json
                                 {| version := version sd; sd_content := c |})))])))
    \/
    ((lastRefOf p = Some (rref r) \/ (p_content p = None /\ p_fileContent p = None)) /\
     w_last_sync w' = w_last_sync w)).
Proof.
  intros Hp E. unfold apply, bind, get in E. rewrite Hp in E.
  destruct (applyChanges env p fp w) as [[r|e|] w1] eqn:Ea; try discriminate E.
  exists r, w1. split; [reflexivity |].
  unfold applyCheckpoint in E.
  destruct (negb (opt_str_eqb (lastRefOf p) (Some (rref r)))
            && (match p_content p with Some _ => true | None => false end
                || match p_fileContent p with Some _ => true | None => false end)) eqn:Hc.
  - left. apply andb_true_iff in Hc. destruct Hc as [H1 H2].
    rewrite negb_true_iff in H1. rewrite orb_true_iff in H2.
    split; [intros H; apply opt_str_eqb_spec in H; congruence |].
    split; [destruct H2 as [H2 | H2]; [left | right]; intros H; rewrite H in H2; discriminate H2 |].
    unfold bind in E.
    pose proof (toSyncContent_world env (checkpointContentOf p) None w1) as Hw.
    destruct (toSyncContent env (checkpointContentOf p) None w1) as [[c|e|] w2] eqn:Et;
      simpl in Hw; subst w2; try discriminate E.
    destruct (syncData r) as [sd|] eqn:Hsd; [| discriminate E].
    exists sd, c. split; [reflexivity | split; [reflexivity |]].
    cbv [updateLastSyncUserData modify emit ret] in E. inversion E. reflexivity.
  - right. apply andb_false_iff in Hc. split.
    + destruct Hc as [H | H].
      * left. apply negb_false_iff, opt_str_eqb_spec in H. exact H.
      * right. apply orb_false_iff in H. destruct H as [H1 H2].
        destruct (p_content p), (p_fileContent p); try discriminate; split; reflexivity.
    + cbv [ret bind modify] in E. inversion E. simpl.
      exact (applyChanges_same_checkpoint env p fp w (Ok r) w1 Ea).
Qed.

Lemma apply_checkpoint_witness :
  w_last_sync (snd (apply env_linux false world_push))
  = Some (checkpoint_file "2" (linux_sync_content "[1]")).
Proof.
  destruct (apply_checkpoint env_linux false world_push preview_push
              (snd (apply env_linux false world_push)))
    as (r & w1 & Ea & [(Hne & Hcf & sd & c & Hsd & Ht & Hw) | ([Hl | [Hc _]] & _)]);
    [reflexivity | vm_compute; reflexivity | | discriminate Hl | discriminate Hc].
  vm_compute in Ea. injection Ea as <- <-. vm_compute in Hsd. injection Hsd as <-.
  vm_compute in Ht. injection Ht as <-. rewrite Hw. vm_compute. reflexivity.
Defined.

(** C5: a remote that exists (ref 1) but holds keybindings for another
    platform only, with no local file and no checkpoint: the ref differs from
    the (absent) checkpoint, yet [sync()] completes without writing one. *)
Lemma checkpoint_not_written :
  fst (getRemoteUserData kb_version None world_mac_only)
  = Ok {| rref := "1"; syncData := Some {| version := 1;
                                           sd_content := stringify (JObj [("mac", JStr "[]")]) |} |} /\
  w_last_sync world_mac_only = None /\
  fst (kb_sync env_linux 1 None world_mac_only) = Ok tt /\
  w_last_sync (snd (kb_sync env_linux 1 None world_mac_only)) = None.
Proof. repeat split; vm_compute; reflexivity. Qed.

(** ** Resolving conflicts *)

(** C8 (amended): [accept(content)] in [HasConflicts] with a preview in
    flight runs [apply(true)] on the preview whose candidate content is
    replaced, then sets [Idle]; none of the remote writes it issues carries
    an [If-Match] precondition; the status is [Idle] when it completes, and
    stays [HasConflicts] when [apply] fails (for instance on content that
    fails validation). *)
Theorem accept_resolves env c w p r w' :
  w_status w = HasConflicts -> w_preview w = Some p ->
  accept env c w = (r, w') ->
  accept env c w = (apply env true;; setStatus Idle) (set_preview (Some (with_content p c)) w) /\
  no_new_if_match w w' /\
  (r = Ok tt -> w_status w' = Idle) /\
  (r <> Ok tt -> w_status w' = HasConflicts).
Proof.
  intros Hs Hp E.
  assert (Eq : accept env c w
               = (apply env true;; setStatus Idle) (set_preview (Some (with_content p c)) w)).
  { unfold accept. cbv [bind get modify]. rewrite Hs, Hp. reflexivity. }
  split; [exact Eq |].
  split; [exact (accept_no_if_match env c w r w' E) |].
  rewrite Eq in E. unfold bind in E.
  destruct (apply env true (set_preview (Some (with_content p c)) w)) as [[u|e|] w2] eqn:Ea.
  - cbv [setStatus bind get] in E.
    destruct (status_eqb (w_status w2) Idle) eqn:Hi.
    + cbv [ret] in E. inversion E; subst.
      split; [intros _ | intros H; exfalso; apply H; reflexivity].
      destruct (w_status w'); try discriminate Hi; reflexivity.
    + cbv [modify emit ret] in E. inversion E; subst.
      split; [intros _; reflexivity | intros H; exfalso; apply H; reflexivity].
  - inversion E; subst. split; [intros H; discriminate H | intros _].
    rewrite (apply_same_status env true _ _ _ Ea). exact Hs.
  - inversion E; subst. split; [intros H; discriminate H | intros _].
    rewrite (apply_same_status env true _ _ _ Ea). exact Hs.
Qed.

Lemma accept_resolves_witness :
  w_status (snd (accept env_linux "[3]" world_conflict)) = Idle.
Proof.
  destruct (accept_resolves env_linux "[3]" world_conflict preview_conflict
              (fst (accept env_linux "[3]" world_conflict))
              (snd (accept env_linux "[3]" world_conflict)))
    as (_ & _ & Hok & _);
    [reflexivity | reflexivity | apply surjective_pairing |].
  apply Hok. vm_compute. reflexivity.
Defined.

(** C8: accepting content that fails validation raises
    [LocalInvalidContent] and leaves the status [HasConflicts]. *)
Lemma accept_invalid_keeps_conflicts :
  fst (accept env_linux "[" world_conflict) = Err (SyncError LocalInvalidContent) /\
  w_status (snd (accept env_linux "[" world_conflict)) = HasConflicts.
Proof. split; vm_compute; reflexivity. Qed.

(** ** A remote resource with no keybindings content *)

(** C10 (amended): when the remote sync data exists but its keybindings
    content for this platform is missing or empty, [generatePreview] neither
    validates the local content nor merges: the local file's content (if
    any) becomes the candidate content with [hasRemoteChanged], no
    [hasLocalChanged] and no [hasConflicts]. [apply] then validates that
    content: when it fails, [apply] raises [LocalInvalidContent] with no
    write; otherwise it writes it to the remote (conditioned on the remote
    ref unless forced) and deletes the preview file. *)
Theorem generatePreview_empty_remote env remote last w sd :
  syncData remote = Some sd -> truthy (remoteContentOf env remote) = false ->
  let P := {| p_fileContent := w_file w; p_remoteUserData := remote; p_lastSyncUserData := last;
              p_content := option_map fc_value (w_file w); p_hasLocalChanged := false;
              p_hasRemoteChanged := match w_file w with Some _ => true | None => false end;
              p_hasConflicts := false |} in
  exists w', generatePreview env remote last w = (Ok P, w') /\
    merges (w_log w') = merges (w_log w) /\
    forall fc fp w0, w_file w = Some fc ->
      (hasErrors (fc_value fc) = true ->
       applyChanges env P fp w0 = (Err (SyncError LocalInvalidContent), w0)) /\
      (hasErrors (fc_value fc) = false ->
       applyChanges env P fp w0 =
       (rc <- toSyncContent env (fc_value fc) (Some (sd_content sd));;
        r <- updateRemoteUserData kb_version rc (if fp then None else Some (rref remote));;
        deletePreviewFile;;
        ret r) w0).
Proof.
  intros Hsd Htr P.
  cbv [generatePreview getLocalFileContent bind get ret]. cbv zeta. rewrite Htr.
  destruct (w_file w) as [f|] eqn:Hf.
  - destruct (truthy (Some (fc_value f))); cbv [writePreviewFile bind modify emit ret];
      eexists; (split; [reflexivity |]); (split; [reflexivity |]);
      intros fc fp w0 Hfc; injection Hfc as <-;
      (split; intros He; unfold applyChanges, P; simpl; rewrite He; [reflexivity |]);
      rewrite Hsd; cbv [bind ret];
      destruct (toSyncContent env (fc_value f) (Some (sd_content sd)) w0) as [[a|e|] w1];
      try reflexivity;
      destruct (updateRemoteUserData kb_version a (if fp then None else Some (rref remote)) w1)
        as [[r|e|] w2]; reflexivity.
  - eexists. split; [reflexivity |]. split; [reflexivity |].
    intros fc fp w0 Hfc. discriminate Hfc.
Qed.

Lemma generatePreview_empty_remote_witness :
  exists p, fst (generatePreview env_linux (remote_with "") None world_invalid_local) = Ok p /\
            p_content p = Some "[" /\ p_hasRemoteChanged p = true.
Proof.
  destruct (generatePreview_empty_remote env_linux (remote_with "") None world_invalid_local
              {| version := 1; sd_content := linux_sync_content "" |})
    as (w' & E & _); [reflexivity | vm_compute; reflexivity |].
  rewrite E. eexists. split; [reflexivity | split; reflexivity].
Defined.

(** C10: an empty remote keybindings content and a local file that is not
    valid JSON: [sync()] fails with [LocalInvalidContent] and pushes
    nothing. *)
Lemma invalid_local_not_pushed :
  remoteContentOf env_linux (remote_with "") = Some "" /\
  fst (getRemoteUserData kb_version None world_invalid_local) = Ok (remote_with "") /\
  fst (kb_sync env_linux 1 None world_invalid_local) = Err (SyncError LocalInvalidContent) /\
  remote_writes (w_log (snd (kb_sync env_linux 1 None world_invalid_local))) = [].
Proof. repeat split; vm_compute; reflexivity. Qed.

(** ** Extras: further properties of the code *)

Lemma json_parse_checkpoint a b :
  json_parse (stringify (JObj [("ref", JStr a); ("content", JStr b)]))
  = Some (JObj [("ref", JStr a); ("content", JStr b)]).
Proof.
  apply json_parse_stringify. apply json_wf_obj. simpl. split.
  - repeat constructor; simpl; intuition discriminate.
  - repeat constructor.
Qed.

Lemma json_parse_syncData sd :
  json_parse (stringify (syncData_json sd)) = Some (syncData_json sd).
Proof.
  apply json_parse_stringify. apply json_wf_obj. simpl. split.
  - repeat constructor; simpl; intuition discriminate.
  - repeat constructor.
Qed.

(** X1: writing the last-sync checkpoint and reading it back gives the ref
    written and its sync data; sync data that is not a well-formed envelope
    (version 0 or empty content) comes back migrated: wrapped, as JSON, in an
    envelope of the current version (and [null] for absent sync data). *)
Theorem checkpoint_roundtrip v r w :
  fst ((updateLastSyncUserData r;; getLastSyncUserData v) w) =
  Ok (Some {| rref := rref r;
              syncData := Some (match syncData r with
                                | Some sd =>
                                    if negb (version sd =? 0) && negb (String.eqb (sd_content sd) "")
                                    then sd
                                    else {| version := v; sd_content := stringify (syncData_json sd) |}
                                | None => {| version := v; sd_content := "null" |}
                                end) |}).
Proof.
  set (c := match syncData r with Some sd => stringify (syncData_json sd) | None => "null" end).
  cbv [bind updateLastSyncUserData getLastSyncUserData modify emit get ret fst].
  cbn [w_last_sync with_log set_last_sync].
  fold c.

  rewrite json_parse_checkpoint. cbn [lookup]. cbn [String.eqb Ascii.eqb Bool.eqb].
  subst c. destruct (syncData r) as [sd|].
  - rewrite json_parse_syncData. unfold syncData_json, isSyncData. cbn [lookup String.eqb Ascii.eqb Bool.eqb].
    destruct sd as [ver cont]. simpl.
    destruct (negb (ver =? 0) && negb (String.eqb cont "")); reflexivity.
  - reflexivity.
Qed.

Lemma lookup_set_prop_eq k v kvs : lookup k (set_prop k v kvs) = Some v.
Proof.
  induction kvs as [|[k' v'] r IH]; simpl; [rewrite String.eqb_refl; reflexivity |].
  destruct (String.eqb_spec k k') as [<- | Hne]; simpl.
  - rewrite String.eqb_refl. reflexivity.
  - apply String.eqb_neq in Hne. rewrite Hne. exact IH.
Qed.

Lemma lookup_set_prop_neq k k' v kvs : k' <> k -> lookup k' (set_prop k v kvs) = lookup k' kvs.
Proof.
  intros Hne. induction kvs as [|[k0 v0] r IH]; simpl.
  - apply String.eqb_neq in Hne. rewrite Hne. reflexivity.
  - destruct (String.eqb_spec k k0) as [<- | Hne0]; simpl.
    + apply String.eqb_neq in Hne. rewrite Hne. reflexivity.
    + destruct (String.eqb k' k0); [reflexivity | exact IH].
Qed.

Lemma lookup_delete_prop_eq k kvs : lookup k (delete_prop k kvs) = None.
Proof.
  induction kvs as [|[k' v'] r IH]; simpl; [reflexivity |].
  destruct (String.eqb_spec k k') as [<- | Hne]; simpl; [exact IH |].
  apply String.eqb_neq in Hne. rewrite Hne. exact IH.
Qed.

Lemma lookup_delete_prop_neq k k' kvs : k' <> k -> lookup k' (delete_prop k kvs) = lookup k' kvs.
Proof.
  intros Hne. induction kvs as [|[k0 v0] r IH]; simpl; [reflexivity |].
  destruct (String.eqb_spec k k0) as [<- | Hne0]; simpl.
  - apply String.eqb_neq in Hne. rewrite Hne. exact IH.
  - destruct (String.eqb k' k0); [reflexivity | exact IH].
Qed.

Lemma delete_prop_keys_in k kvs x : In x (map fst (delete_prop k kvs)) -> In x (map fst kvs).
Proof.
  induction kvs as [|[k' v'] r IH]; simpl; [intuition |].
  destruct (String.eqb k k'); simpl; intuition.
Qed.

Lemma delete_prop_nodup k kvs : NoDup (map fst kvs) -> NoDup (map fst (delete_prop k kvs)).
Proof.
  induction kvs as [|[k' v'] r IH]; intros Hnd; simpl; [constructor |].
  simpl in Hnd. inversion Hnd as [|? ? Hn Hnd']; subst.
  destruct (String.eqb k k'); simpl; [auto |].
  constructor; [| auto]. intros Hin. apply Hn. exact (delete_prop_keys_in _ _ _ Hin).
Qed.

Lemma delete_prop_forall (P : jv -> Prop) k kvs :
  Forall (fun kv => P (snd kv)) kvs -> Forall (fun kv => P (snd kv)) (delete_prop k kvs).
Proof.
  induction 1 as [|[k' v'] r Hx Hr IH]; simpl; [constructor |].
  destruct (String.eqb k k'); [exact IH | constructor; auto].
Qed.

Lemma os_key_all env : os_key env <> "all".
Proof. unfold os_key. destruct (OS env); discriminate. Qed.

(** The object [toSyncContent] serialises, from the parsed object [kvs]. *)
Lemma toSyncContent_obj_wf env k kvs :
  json_wf (JObj kvs) ->
  json_wf (JObj (set_prop (os_key env) (JStr k)
    (if negb (keybindingsPerPlatform env) then set_prop "all" (JStr k) kvs else delete_prop "all" kvs))).
Proof.
  rewrite !json_wf_obj. intros [Hnd Hf].
  split; [apply set_prop_nodup | apply set_prop_forall; [exact I |]];
    destruct (negb _); auto using set_prop_nodup, delete_prop_nodup, delete_prop_forall.
  apply set_prop_forall; [exact I | exact Hf].
Qed.

(** X4: [toSyncContent] over sync content holding a JSON object sets the
    platform key to the content, sets or removes the [all] key according to
    [sync.keybindingsPerPlatform], keeps every other key of the object, and
    changes nothing else in the world. *)
Theorem toSyncContent_keeps_keys env k c kvs w :
  json_parse c = Some (JObj kvs) ->
  exists out kvs',
    toSyncContent env k (Some c) w = (Ok out, w) /\
    json_parse out = Some (JObj kvs') /\
    lookup (os_key env) kvs' = Some (JStr k) /\
    lookup "all" kvs' = (if keybindingsPerPlatform env then None else Some (JStr k)) /\
    (forall x, x <> os_key env -> x <> "all" -> lookup x kvs' = lookup x kvs).
Proof.
  intros Hp.
  assert (Hc : truthy (Some c) = true).
  { destruct c as [|a t]; [discriminate | reflexivity]. }
  pose proof (json_parse_wf _ _ Hp) as Hwf.
  unfold toSyncContent. rewrite Hc, Hp.
  set (kvs1 := if negb (keybindingsPerPlatform env) then set_prop "all" (JStr k) kvs else delete_prop "all" kvs).
  exists (stringify (JObj (set_prop (os_key env) (JStr k) kvs1))), (set_prop (os_key env) (JStr k) kvs1).
  split; [reflexivity |]. split; [apply json_parse_stringify, toSyncContent_obj_wf, Hwf |].
  split; [apply lookup_set_prop_eq |].
  pose proof (os_key_all env) as Hos.
  split.
  - rewrite lookup_set_prop_neq by (intros E; apply Hos; symmetry; exact E).
    subst kvs1. destruct (keybindingsPerPlatform env); simpl.
    + apply lookup_delete_prop_eq.
    + apply lookup_set_prop_eq.
  - intros x H1 H2. rewrite lookup_set_prop_neq by exact H1.
    subst kvs1. destruct (negb _).
    + apply lookup_set_prop_neq; exact H2.
    + apply lookup_delete_prop_neq; exact H2.
Qed.

Lemma toSyncContent_keeps_keys_witness :
  exists out kvs',
    toSyncContent env_linux "[1]" (Some (stringify (JObj [("mac", JStr "[9]")]))) world_empty_file
    = (Ok out, world_empty_file) /\
    lookup "linux" kvs' = Some (JStr "[1]") /\ lookup "mac" kvs' = Some (JStr "[9]").
Proof.
  destruct (toSyncContent_keeps_keys env_linux "[1]" (stringify (JObj [("mac", JStr "[9]")]))
              [("mac", JStr "[9]")] world_empty_file) as (out & kvs' & H1 & _ & H3 & _ & H5);
    [vm_compute; reflexivity |].
  exists out, kvs'. split; [exact H1 | split; [exact H3 |]].
  apply H5; discriminate.
Defined.

Lemma ok_inj {A} (a b : A) : @Ok A a = Ok b -> a = b.
Proof. intros H; injection H; auto. Qed.

Lemma getKbs_toSyncContent_obj env k kvs :
  json_wf (JObj kvs) ->
  getKeybindingsContentFromSyncContent env
    (stringify (JObj (set_prop (os_key env) (JStr k)
      (if negb (keybindingsPerPlatform env) then set_prop "all" (JStr k) kvs else delete_prop "all" kvs))))
  = Some k.
Proof.
  intros Hwf. unfold getKeybindingsContentFromSyncContent.
  rewrite json_parse_stringify by (apply toSyncContent_obj_wf; exact Hwf).
  destruct (keybindingsPerPlatform env); simpl.
  - rewrite lookup_set_prop_eq. reflexivity.
  - rewrite lookup_set_prop_neq by (intros E; apply (os_key_all env); symmetry; exact E).
    rewrite lookup_set_prop_eq. reflexivity.
Qed.

(** X3: whatever [toSyncContent] produces from keybindings content [k]
    yields [k] back through [getKeybindingsContentFromSyncContent], except
    when the previous sync content was a JSON array, which it returns
    re-serialised and from which no content is read back. *)
Theorem toSyncContent_roundtrip env k s w out :
  fst (toSyncContent env k s w) = Ok out ->
  getKeybindingsContentFromSyncContent env out = Some k \/
  exists l, json_parse (match s with Some c => c | None => "" end) = Some (JArr l) /\
            out = stringify (JArr l) /\
            getKeybindingsContentFromSyncContent env out = None.
Proof.
  unfold toSyncContent.
  destruct (truthy s) eqn:Ht.
  - destruct (json_parse (match s with Some c => c | None => "" end)) as [v|] eqn:Ep.
    + destruct v as [| b | z | str | l | kvs]; intros H; cbv beta iota delta [fst ret throw] in H; try discriminate.
      * right. exists l. assert (Ho : out = stringify (JArr l)) by (inversion H; reflexivity). subst out. split; [reflexivity | split; [reflexivity |]].
        unfold getKeybindingsContentFromSyncContent.
        rewrite json_parse_stringify by exact (json_parse_wf _ _ Ep).
        destruct (negb _); reflexivity.
      * left. change (Ok (stringify (JObj (set_prop (os_key env) (JStr k) (if negb (keybindingsPerPlatform env) then set_prop "all" (JStr k) kvs else delete_prop "all" kvs)))) = Ok out) in H. apply ok_inj in H; subst out. apply getKbs_toSyncContent_obj. exact (json_parse_wf _ _ Ep).
    + intros H. left. change (Ok (stringify (JObj (set_prop (os_key env) (JStr k) (if negb (keybindingsPerPlatform env) then set_prop "all" (JStr k) [] else delete_prop "all" [])))) = Ok out) in H. apply ok_inj in H; subst out.
      apply getKbs_toSyncContent_obj. simpl. split; [constructor | exact I].
  - intros H. left. change (Ok (stringify (JObj (set_prop (os_key env) (JStr k) (if negb (keybindingsPerPlatform env) then set_prop "all" (JStr k) [] else delete_prop "all" [])))) = Ok out) in H. apply ok_inj in H; subst out.
    apply getKbs_toSyncContent_obj. simpl. split; [constructor | exact I].
Qed.

Lemma toSyncContent_roundtrip_witness :
  fst (toSyncContent env_linux "[]" None world_empty_file) = Ok (linux_sync_content "[]") /\
  getKeybindingsContentFromSyncContent env_linux (linux_sync_content "[]") = Some "[]".
Proof.
  split; [vm_compute; reflexivity |].
  destruct (toSyncContent_roundtrip env_linux "[]" None world_empty_file (linux_sync_content "[]")
              ltac:(vm_compute; reflexivity)) as [H | [l [H _]]];
    [exact H | vm_compute in H; discriminate].
Defined.

(** X5: [toSyncContent] over sync content that is the JSON text of
    [null], a boolean, an integer or a string fails with a [TypeError] and
    leaves the world unchanged. *)
Theorem toSyncContent_primitive env k c v w :
  json_parse c = Some v -> (forall l, v <> JArr l) -> (forall kvs, v <> JObj kvs) ->
  toSyncContent env k (Some c) w = (Err (PlainError "TypeError"), w).
Proof.
  intros Hp Ha Ho.
  assert (Hc : truthy (Some c) = true).
  { destruct c as [|a t]; [discriminate | reflexivity]. }
  unfold toSyncContent. rewrite Hc, Hp.
  destruct v as [| b | z | str | l | kvs]; try reflexivity.
  - exfalso. exact (Ha l eq_refl).
  - exfalso. exact (Ho kvs eq_refl).
Qed.

Lemma toSyncContent_primitive_witness :
  toSyncContent env_linux "[]" (Some "1") world_empty_file
  = (Err (PlainError "TypeError"), world_empty_file).
Proof.
  apply (toSyncContent_primitive env_linux "[]" "1" (JNum 1) world_empty_file);
    [vm_compute; reflexivity | intros ? ?; discriminate | intros ? ?; discriminate].
Defined.

Lemma show_nat_truthy n : truthy (Some (show_nat n)) = true.
Proof.
  unfold show_nat. destruct (show_Z_head (Z.of_nat n) "") as [c [t [E _]]].
  rewrite str_app_nil_r in E. rewrite E. reflexivity.
Qed.

Lemma bind_ok {A B} (m : M A) (k : A -> M B) w a w1 :
  m w = (Ok a, w1) -> bind m k w = k a w1.
Proof. intros E. unfold bind. rewrite E. reflexivity. Qed.

(** [request] with a session token: the request sent, with its bearer header. *)
Lemma request_sent rq w tok :
  w_token w = Some tok -> tok <> "" ->
  request rq w =
  (let rq' := {| rq_type := rq_type rq; rq_url := rq_url rq;
                 rq_headers := set_header "authorization" ("Bearer " ++ tok) (rq_headers rq);
                 rq_data := rq_data rq |} in
   (ans <- serve rq';;
    match ans with
    | None => throw (SyncError ConnectionRefused)
    | Some ctx =>
        if rs_status ctx =? 401 then emit EvTokenFailed;; throw (SyncError Unauthorized)
        else if rs_status ctx =? 403 then throw (SyncError Forbidden)
        else if rs_status ctx =? 412 then throw (SyncError RemotePreconditionFailed)
        else if rs_status ctx =? 413 then throw (SyncError TooLarge)
        else ret ctx
    end) (with_log (EvRequest rq') w)).
Proof.
  intros Ht Hne. unfold request, bind at 1, get. rewrite Ht.
  destruct tok as [|a t]; [congruence |]. reflexivity.
Qed.

Lemma request_store rq w base tok rev c ctx s' :
  w_store_url w = Some base -> w_token w = Some tok -> tok <> "" -> w_server w = Store rev c ->
  let rq' := {| rq_type := rq_type rq; rq_url := rq_url rq;
                rq_headers := set_header "authorization" ("Bearer " ++ tok) (rq_headers rq);
                rq_data := rq_data rq |} in
  store_answer base rev c rq' = (Some ctx, s') ->
  (200 <=? rs_status ctx) && (rs_status ctx <? 300) = true ->
  request rq w = (Ok ctx, set_server s' (with_log (EvRequest rq') w)).
Proof.
  intros Hu Ht Hne Hs rq' Ha Hok.
  rewrite (request_sent rq w tok Ht Hne). cbv zeta. fold rq'.
  unfold bind at 1, serve. cbn [w_server w_store_url with_log]. rewrite Hs, Hu, Ha.
  apply andb_prop in Hok. destruct Hok as [H1 H2]. apply Z.leb_le in H1. apply Z.ltb_lt in H2.
  cbv beta iota.
  rewrite (proj2 (Z.eqb_neq (rs_status ctx) 401)) by lia.
  rewrite (proj2 (Z.eqb_neq (rs_status ctx) 403)) by lia.
  rewrite (proj2 (Z.eqb_neq (rs_status ctx) 412)) by lia.
  rewrite (proj2 (Z.eqb_neq (rs_status ctx) 413)) by lia.
  reflexivity.
Qed.

Lemma store_answer_post base rev c data hs :
  header "If-Match" hs = None \/ header "If-Match" hs = Some (show_nat rev) ->
  store_answer base rev c
    {| rq_type := "POST"; rq_url := base ++ "/resource/keybindings"; rq_headers := hs; rq_data := Some data |}
  = (Some {| rs_status := 200; rs_etag := Some (show_nat (S rev)); rs_body := None |},
     Store (S rev) (Some data)).
Proof.
  intros H. unfold store_answer. cbv zeta. cbn [rq_type rq_url rq_headers rq_data].
  change (String.eqb "POST" "GET") with false. change (String.eqb "POST" "POST") with true.
  rewrite String.eqb_refl. cbn [andb].
  destruct H as [-> | ->]; [reflexivity | rewrite String.eqb_refl; reflexivity].
Qed.

Lemma store_answer_get base rev c hs :
  header "If-None-Match" hs = None ->
  store_answer base rev c
    {| rq_type := "GET"; rq_url := (base ++ "/resource/keybindings") ++ "/latest"; rq_headers := hs; rq_data := None |}
  = (Some {| rs_status := if c then 200 else 204; rs_etag := Some (show_nat rev); rs_body := c |},
     Store rev c).
Proof.
  intros H. unfold store_answer. cbv zeta. cbn [rq_type rq_url rq_headers rq_data].
  change (String.eqb "GET" "GET") with true.
  rewrite String.eqb_refl. cbn [andb]. rewrite H. reflexivity.
Qed.

(** [write] of the keybindings resource on a store that takes it. *)
Lemma write_store data ref w base tok rev c :
  w_store_url w = Some base -> w_token w = Some tok -> tok <> "" -> w_server w = Store rev c ->
  ref = None \/ ref = Some (show_nat rev) ->
  exists w1, write resourceKey data ref w = (Ok (show_nat (S rev)), w1) /\
    w_store_url w1 = Some base /\ w_token w1 = Some tok /\ w_server w1 = Store (S rev) (Some data).
Proof.
  intros Hu Ht Hne Hs Hr.
  unfold write. unfold bind at 1, get. rewrite Hu. cbv zeta.
  erewrite bind_ok.
  2:{ apply (request_store _ w base tok rev c) ; auto.
      - cbn [rq_type rq_url rq_headers rq_data]. unfold resourceKey.
        change ("/resource/" ++ "keybindings") with "/resource/keybindings".
        apply store_answer_post.
        destruct Hr as [-> | ->]; [left; reflexivity | right].
        rewrite show_nat_truthy. reflexivity.
      - reflexivity. }
  cbn [rs_status rs_etag isSuccess]. rewrite show_nat_truthy. cbn [negb].
  eexists. split; [reflexivity |]. cbn. auto.
Qed.

(** [read] of the keybindings resource, without a cached value. *)
Lemma read_store w base tok rev c :
  w_store_url w = Some base -> w_token w = Some tok -> tok <> "" -> w_server w = Store rev c ->
  exists w1, read resourceKey None w = (Ok (Some {| ud_ref := show_nat rev; ud_content := c |}), w1) /\
    w_server w1 = Store rev c.
Proof.
  intros Hu Ht Hne Hs.
  unfold read. unfold bind at 1, get. rewrite Hu. cbv zeta.
  erewrite bind_ok.
  2:{ apply (request_store _ w base tok rev c) ; auto.
      - cbn [rq_type rq_url rq_headers rq_data]. unfold resourceKey.
        change ("/resource/" ++ "keybindings" ++ "/latest") with ("/resource/keybindings" ++ "/latest").
        rewrite str_app_assoc. apply store_answer_get. reflexivity.
      - destruct c; reflexivity. }
  cbn [rs_status rs_etag rs_body]. rewrite show_nat_truthy.
  destruct c; (eexists; split; [reflexivity | reflexivity]).
Qed.

(** X2: on a store that accepts the write, [updateRemoteUserData] followed
    by [getRemoteUserData] without a cached value returns twice the same
    remote data: the next revision as ref, and the sync data written. *)
Theorem remote_roundtrip v content ref w base tok rev c :
  v <> 0 -> content <> "" ->
  w_store_url w = Some base -> w_token w = Some tok -> tok <> "" -> w_server w = Store rev c ->
  ref = None \/ ref = Some (show_nat rev) ->
  fst ((r1 <- updateRemoteUserData v content ref;; r2 <- getRemoteUserData v None;; ret (r1, r2)) w)
  = Ok ({| rref := show_nat (S rev); syncData := Some {| version := v; sd_content := content |} |},
        {| rref := show_nat (S rev); syncData := Some {| version := v; sd_content := content |} |}).
Proof.
  intros Hv Hc Hu Ht Hne Hs Hr.
  destruct (write_store (stringify (syncData_json {| version := v; sd_content := content |})) ref w
              base tok rev c Hu Ht Hne Hs Hr) as [w1 [Hw [Hu1 [Ht1 Hs1]]]].
  unfold updateRemoteUserData. unfold bind at 1.
  erewrite bind_ok by exact Hw. unfold ret at 1. cbv beta iota.
  destruct (read_store w1 base tok (S rev) _ Hu1 Ht1 Hne Hs1) as [w2 [Hr2 _]].
  unfold getRemoteUserData, getUserData. unfold bind at 1 2.
  rewrite Hr2. cbn [ud_ref ud_content].
  unfold parseSyncData. rewrite json_parse_syncData.
  unfold isSyncData, syncData_json. cbn [lookup String.eqb Ascii.eqb Bool.eqb version sd_content].
  apply Z.eqb_neq in Hv. rewrite Hv.
  replace (String.eqb content "") with false
    by (symmetry; apply String.eqb_neq; exact Hc).
  reflexivity.
Qed.

Lemma remote_roundtrip_witness :
  fst ((r1 <- updateRemoteUserData 1 "[]" None;; r2 <- getRemoteUserData 1 None;; ret (r1, r2))
         world_empty_file)
  = Ok ({| rref := show_nat 1; syncData := Some {| version := 1; sd_content := "[]" |} |},
        {| rref := show_nat 1; syncData := Some {| version := 1; sd_content := "[]" |} |}).
Proof.
  apply (remote_roundtrip 1 "[]" None world_empty_file store_base "token" 0 None);
    [discriminate | discriminate | reflexivity | reflexivity | discriminate | reflexivity
    | left; reflexivity].
Defined.

(** X7: without a store url, [read], [write], [delete], [resolveContent]
    and [clear] fail with the error [No settings sync store url configured.];
    with a url but no session token (absent or empty) they fail with
    [Unauthorized]. In both cases they send nothing and leave the world
    unchanged. *)
Theorem store_ops_unconfigured w e key oldValue data ref r :
  (w_store_url w = None /\ e = PlainError "No settings sync store url configured.") \/
  (w_store_url w <> None /\ (w_token w = None \/ w_token w = Some "") /\
   e = SyncError Unauthorized) ->
  read key oldValue w = (Err e, w) /\
  write key data ref w = (Err e, w) /\
  delete key w = (Err e, w) /\
  resolveContent key r w = (Err e, w) /\
  clear w = (Err e, w).
Proof.
  intros [[Hu ->] | [Hu [Ht ->]]];
    unfold read, write, delete, resolveContent, clear, bind, get.
  - rewrite Hu. repeat split.
  - destruct (w_store_url w) as [base|]; [| exfalso; apply Hu; reflexivity].
    unfold request, bind, get.
    destruct Ht as [Ht | Ht]; rewrite Ht; repeat split.
Qed.

Lemma store_ops_unconfigured_witness :
  read "keybindings" None world_no_url
  = (Err (PlainError "No settings sync store url configured."), world_no_url) /\
  write "keybindings" "[]" None world_no_url
  = (Err (PlainError "No settings sync store url configured."), world_no_url) /\
  delete "keybindings" world_no_url
  = (Err (PlainError "No settings sync store url configured."), world_no_url) /\
  resolveContent "keybindings" "1" world_no_url
  = (Err (PlainError "No settings sync store url configured."), world_no_url) /\
  clear world_no_url = (Err (PlainError "No settings sync store url configured."), world_no_url).
Proof.
  apply store_ops_unconfigured. left. split; reflexivity.
Defined.

Lemma header_set_header_eq k v hs : header k (set_header k v hs) = Some v.
Proof.
  induction hs as [|[k' v'] r IH]; simpl; [rewrite String.eqb_refl; reflexivity |].
  destruct (String.eqb_spec k k') as [<- | Hne]; simpl.
  - rewrite String.eqb_refl. reflexivity.
  - apply String.eqb_neq in Hne. rewrite Hne. exact IH.
Qed.

Lemma header_set_header_neq k k' v hs : k' <> k -> header k' (set_header k v hs) = header k' hs.
Proof.
  intros Hne. induction hs as [|[k0 v0] r IH]; simpl.
  - apply String.eqb_neq in Hne. rewrite Hne. reflexivity.
  - destruct (String.eqb_spec k k0) as [<- | Hne0]; simpl.
    + apply String.eqb_neq in Hne. rewrite Hne. reflexivity.
    + destruct (String.eqb k' k0); [reflexivity | exact IH].
Qed.

Lemma serve_log rq w r w1 : serve rq w = (r, w1) -> w_log w1 = w_log w.
Proof.
  unfold serve. destruct (w_server w) as [[|a l]|rev c]; intros E.
  - inversion E; reflexivity.
  - inversion E; reflexivity.
  - destruct (store_answer _ rev c rq). inversion E; reflexivity.
Qed.

(** What [request] sends when it has a token: the request, with the bearer
    header set; it is the first event the call logs. *)
Lemma request_log rq w tok r w' :
  w_token w = Some tok -> tok <> "" -> request rq w = (r, w') ->
  exists rq' evs,
    w_log w' = (evs ++ EvRequest rq' :: w_log w)%list /\
    rq' = {| rq_type := rq_type rq; rq_url := rq_url rq;
             rq_headers := set_header "authorization" ("Bearer " ++ tok) (rq_headers rq);
             rq_data := rq_data rq |}.
Proof.
  intros Ht Hne E. rewrite (request_sent rq w tok Ht Hne) in E. cbv zeta in E.
  set (rq' := {| rq_type := rq_type rq; rq_url := rq_url rq;
                 rq_headers := set_header "authorization" ("Bearer " ++ tok) (rq_headers rq);
                 rq_data := rq_data rq |}) in *.
  exists rq'. unfold bind at 1 in E.
  destruct (serve rq' (with_log (EvRequest rq') w)) as [[a| |] w1] eqn:Es;
    apply serve_log in Es; cbn [w_log with_log] in Es.
  - destruct a as [ctx|].
    + destruct (rs_status ctx =? 401).
      * unfold bind, emit, modify, throw in E. inversion E; subst.
        exists [EvTokenFailed]. split; [cbn; rewrite Es; reflexivity | reflexivity].
      * exists []. split; [| reflexivity]. cbn.
        destruct (rs_status ctx =? 403); [inversion E; subst; exact Es |].
        destruct (rs_status ctx =? 412); [inversion E; subst; exact Es |].
        destruct (rs_status ctx =? 413); inversion E; subst; exact Es.
    + exists []. inversion E; subst. split; [exact Es | reflexivity].
  - exists []. inversion E; subst. split; [exact Es | reflexivity].
  - exists []. inversion E; subst. split; [exact Es | reflexivity].
Qed.

(** X8: with a session token, [request] logs the request it sends before
    anything else; it keeps the method, url and body of the request and its
    headers, except [authorization], which is set to [Bearer <token>]. *)
Theorem request_bearer rq w tok r w' :
  w_token w = Some tok -> tok <> "" -> request rq w = (r, w') ->
  exists rq' evs,
    w_log w' = (evs ++ EvRequest rq' :: w_log w)%list /\
    rq_type rq' = rq_type rq /\ rq_url rq' = rq_url rq /\ rq_data rq' = rq_data rq /\
    header "authorization" (rq_headers rq') = Some ("Bearer " ++ tok) /\
    (forall k, k <> "authorization" -> header k (rq_headers rq') = header k (rq_headers rq)).
Proof.
  intros Ht Hne E. destruct (request_log rq w tok r w' Ht Hne E) as [rq' [evs [Hl ->]]].
  eexists; exists evs. split; [exact Hl |]. cbn [rq_type rq_url rq_data rq_headers].
  split; [reflexivity | split; [reflexivity | split; [reflexivity | split]]].
  - apply header_set_header_eq.
  - intros k Hk. apply header_set_header_neq. exact Hk.
Qed.

Lemma request_bearer_witness :
  exists rq' evs,
    w_log (snd (request rq_sample world_empty_file))
    = (evs ++ EvRequest rq' :: w_log world_empty_file)%list /\
    rq_type rq' = rq_type rq_sample /\ rq_url rq' = rq_url rq_sample /\
    rq_data rq' = rq_data rq_sample /\
    header "authorization" (rq_headers rq') = Some ("Bearer " ++ "token") /\
    (forall k, k <> "authorization" -> header k (rq_headers rq') = header k (rq_headers rq_sample)).
Proof.
  apply (request_bearer rq_sample world_empty_file "token"
           (fst (request rq_sample world_empty_file)) (snd (request rq_sample world_empty_file)));
    [reflexivity | discriminate | apply surjective_pairing].
Defined.

(** X9: [write] sends a POST of the data to [<url>/resource/<key>], with
    a [text/plain] content type and an [If-Match] header holding the ref
    exactly when the ref is a non-empty string. *)
Theorem write_if_match key data ref w base tok r w' :
  w_store_url w = Some base -> w_token w = Some tok -> tok <> "" ->
  write key data ref w = (r, w') ->
  exists rq' evs,
    w_log w' = (evs ++ EvRequest rq' :: w_log w)%list /\
    rq_type rq' = "POST" /\ rq_url rq' = base ++ "/resource/" ++ key /\ rq_data rq' = Some data /\
    header "Content-Type" (rq_headers rq') = Some "text/plain" /\
    header "If-Match" (rq_headers rq') = (if truthy ref then ref else None).
Proof.
  intros Hu Ht Hne E. unfold write, bind at 1, get in E. rewrite Hu in E. cbv zeta in E.
  unfold bind at 1 in E.
  destruct (request _ w) as [r1 w1] eqn:Er.
  destruct (request_log _ w tok r1 w1 Ht Hne Er) as [rq' [evs [Hl ->]]].
  eexists; exists evs. cbn [rq_type rq_url rq_data rq_headers].
  assert (Hw : w' = w1 /\ True).
  { destruct r1 as [ctx| |]; [| inversion E; auto | inversion E; auto].
    destruct (negb (isSuccess ctx)); [inversion E; auto |].
    destruct (negb (truthy (rs_etag ctx))); inversion E; auto. }
  destruct Hw as [-> _].
  split; [exact Hl |]. split; [reflexivity | split; [reflexivity | split; [reflexivity | split]]].
  - reflexivity.
  - destruct (truthy ref) eqn:Etr; [| reflexivity].
    destruct ref as [x|]; [| discriminate]. reflexivity.
Qed.

Lemma write_if_match_witness :
  exists rq' evs,
    w_log (snd (write "keybindings" "data" (Some "1") world_pulled))
    = (evs ++ EvRequest rq' :: w_log world_pulled)%list /\
    rq_type rq' = "POST" /\ rq_url rq' = store_base ++ "/resource/" ++ "keybindings" /\
    rq_data rq' = Some "data" /\
    header "Content-Type" (rq_headers rq') = Some "text/plain" /\
    header "If-Match" (rq_headers rq') = Some "1".
Proof.
  apply (write_if_match "keybindings" "data" (Some "1") world_pulled store_base "token"
           (fst (write "keybindings" "data" (Some "1") world_pulled))
           (snd (write "keybindings" "data" (Some "1") world_pulled)));
    [reflexivity | reflexivity | discriminate | apply surjective_pairing].
Defined.

(** X10: [read] sends a GET to [<url>/resource/<key>/latest] with
    [Cache-Control: no-cache], and an [If-None-Match] header holding the ref
    of the old value exactly when an old value is given. *)
Theorem read_if_none_match key oldValue w base tok r w' :
  w_store_url w = Some base -> w_token w = Some tok -> tok <> "" ->
  read key oldValue w = (r, w') ->
  exists rq' evs,
    w_log w' = (evs ++ EvRequest rq' :: w_log w)%list /\
    rq_type rq' = "GET" /\ rq_url rq' = base ++ "/resource/" ++ key ++ "/latest" /\
    header "Cache-Control" (rq_headers rq') = Some "no-cache" /\
    header "If-None-Match" (rq_headers rq') = match oldValue with Some o => Some (ud_ref o) | None => None end.
Proof.
  intros Hu Ht Hne E. unfold read, bind at 1, get in E. rewrite Hu in E. cbv zeta in E.
  unfold bind at 1 in E.
  destruct (request _ w) as [r1 w1] eqn:Er.
  destruct (request_log _ w tok r1 w1 Ht Hne Er) as [rq' [evs [Hl ->]]].
  eexists; exists evs. cbn [rq_type rq_url rq_data rq_headers].
  assert (Hw : w' = w1).
  { destruct r1 as [ctx| |]; [| inversion E; auto | inversion E; auto].
    destruct (rs_status ctx =? 304); [inversion E; auto |].
    destruct (negb (isSuccess ctx)); [inversion E; auto |].
    destruct (negb (truthy (rs_etag ctx))); inversion E; auto. }
  subst w'.
  split; [exact Hl |]. split; [reflexivity | split; [reflexivity | split]].
  - reflexivity.
  - destruct oldValue; reflexivity.
Qed.

Lemma read_if_none_match_witness :
  exists rq' evs,
    w_log (snd (read "keybindings" (Some {| ud_ref := "1"; ud_content := None |}) world_pulled))
    = (evs ++ EvRequest rq' :: w_log world_pulled)%list /\
    rq_type rq' = "GET" /\ rq_url rq' = store_base ++ "/resource/" ++ "keybindings" ++ "/latest" /\
    header "Cache-Control" (rq_headers rq') = Some "no-cache" /\
    header "If-None-Match" (rq_headers rq') = Some "1".
Proof.
  apply (read_if_none_match "keybindings" (Some {| ud_ref := "1"; ud_content := None |})
           world_pulled store_base "token"
           (fst (read "keybindings" (Some {| ud_ref := "1"; ud_content := None |}) world_pulled))
           (snd (read "keybindings" (Some {| ud_ref := "1"; ud_content := None |}) world_pulled)));
    [reflexivity | reflexivity | discriminate | apply surjective_pairing].
Defined.

(** The outcome [request] gives to an answer [ctx]. *)
Lemma request_scripted rq w tok ctx rest :
  w_token w = Some tok -> tok <> "" -> w_server w = Scripted (Some ctx :: rest) ->
  exists w1, request rq w =
    (if rs_status ctx =? 401 then Err (SyncError Unauthorized)
     else if rs_status ctx =? 403 then Err (SyncError Forbidden)
     else if rs_status ctx =? 412 then Err (SyncError RemotePreconditionFailed)
     else if rs_status ctx =? 413 then Err (SyncError TooLarge)
     else Ok ctx, w1).
Proof.
  intros Ht Hne Hs. rewrite (request_sent rq w tok Ht Hne). cbv zeta.
  unfold bind at 1, serve. cbn [w_server with_log]. rewrite Hs. cbv beta iota.
  destruct (rs_status ctx =? 401); [eexists; reflexivity |].
  destruct (rs_status ctx =? 403); [eexists; reflexivity |].
  destruct (rs_status ctx =? 412); [eexists; reflexivity |].
  destruct (rs_status ctx =? 413); eexists; reflexivity.
Qed.

(** X11: [resolveContent] and [clear] map the server's answer as [request]
    does (401, 403, 412, 413), then fail with [Unknown] on a non-2xx status;
    on success [resolveContent] returns the body and [clear] returns. *)
Theorem resolveContent_clear_answer key ref w base tok ctx rest :
  w_store_url w = Some base -> w_token w = Some tok -> tok <> "" ->
  w_server w = Scripted (Some ctx :: rest) ->
  let mapped {A} (ok : A) : Result A :=
    if rs_status ctx =? 401 then Err (SyncError Unauthorized)
    else if rs_status ctx =? 403 then Err (SyncError Forbidden)
    else if rs_status ctx =? 412 then Err (SyncError RemotePreconditionFailed)
    else if rs_status ctx =? 413 then Err (SyncError TooLarge)
    else if isSuccess ctx then Ok ok else Err (SyncError Unknown) in
  fst (resolveContent key ref w) = mapped (rs_body ctx) /\ fst (clear w) = mapped tt.
Proof.
  intros Hu Ht Hne Hs mapped. unfold resolveContent, clear, bind at 1 3, get.
  rewrite Hu. cbv zeta. unfold bind at 1 2.
  destruct (request_scripted {| rq_type := "GET"; rq_url := base ++ "/resource/" ++ key ++ "/" ++ ref;
                                rq_headers := []; rq_data := None |} w tok ctx rest Ht Hne Hs) as [w1 E1].
  destruct (request_scripted {| rq_type := "DELETE"; rq_url := base ++ "/resource";
                                rq_headers := [("Content-Type", "text/plain")]; rq_data := None |}
              w tok ctx rest Ht Hne Hs) as [w2 E2].
  rewrite E1, E2. unfold mapped.
  destruct (rs_status ctx =? 401); [split; reflexivity |].
  destruct (rs_status ctx =? 403); [split; reflexivity |].
  destruct (rs_status ctx =? 412); [split; reflexivity |].
  destruct (rs_status ctx =? 413); [split; reflexivity |].
  destruct (isSuccess ctx); split; reflexivity.
Qed.

Lemma resolveContent_clear_answer_witness :
  fst (resolveContent "keybindings" "1" (world_answers [Some (resp 412 None)]))
  = Err (SyncError RemotePreconditionFailed) /\
  fst (clear (world_answers [Some (resp 412 None)])) = Err (SyncError RemotePreconditionFailed).
Proof.
  exact (resolveContent_clear_answer "keybindings" "1" (world_answers [Some (resp 412 None)])
           store_base "token" (resp 412 None) [] eq_refl eq_refl ltac:(discriminate) eq_refl).
Defined.

(** X12: after [resetLocal], [hasPreviouslySynced] is false; after any
    [updateLastSyncUserData], it is true. *)
Theorem hasPreviouslySynced_reset_update v r w :
  fst ((resetLocal;; hasPreviouslySynced v) w) = Ok false /\
  fst ((updateLastSyncUserData r;; hasPreviouslySynced v) w) = Ok true.
Proof.
  split; [reflexivity |].
  cbv [bind updateLastSyncUserData hasPreviouslySynced getLastSyncUserData modify emit get ret fst].
  cbn [w_last_sync with_log set_last_sync].
  rewrite json_parse_checkpoint. cbn [lookup String.eqb Ascii.eqb Bool.eqb].
  destruct (syncData r) as [sd|].
  - rewrite json_parse_syncData. reflexivity.
  - reflexivity.
Qed.

Lemma os_key_cases env : os_key env = "mac" \/ os_key env = "linux" \/ os_key env = "windows".
Proof. unfold os_key. destruct (OS env); auto. Qed.

(** X13: [getFragment] over a serialised envelope of non-zero version gives
    the keybindings content of its sync content for the fragment
    [keybindings], and nothing for any other fragment. *)
Theorem getFragment_envelope env sd fragment :
  version sd <> 0 ->
  getFragment env (stringify (syncData_json sd)) fragment
  = if String.eqb fragment "keybindings"
    then getKeybindingsContentFromSyncContent env (sd_content sd) else None.
Proof.
  intros Hv. unfold getFragment, parseSyncData. rewrite json_parse_syncData.
  destruct sd as [ver c]. cbn [version sd_content] in *.
  unfold isSyncData, syncData_json. cbn [lookup String.eqb Ascii.eqb Bool.eqb version sd_content].
  apply Z.eqb_neq in Hv. rewrite Hv. cbn [negb andb].
  destruct (String.eqb_spec c "") as [-> | Hc]; cbn [negb andb List.length Nat.eqb].
  - destruct (String.eqb fragment "keybindings"); [| reflexivity].
    unfold getKeybindingsContentFromSyncContent at 1.
    pose proof (json_parse_syncData {| version := ver; sd_content := "" |}) as Hj.
    unfold syncData_json in Hj. cbn [version sd_content] in Hj. cbn [sd_content]. rewrite Hj.
    destruct (negb (keybindingsPerPlatform env)); [reflexivity |].
    destruct (os_key_cases env) as [-> | [-> | ->]]; reflexivity.
  - reflexivity.
Qed.

Lemma getFragment_envelope_witness :
  getFragment env_linux (envelope (linux_sync_content "[]")) "keybindings" = Some "[]".
Proof.
  unfold envelope.
  rewrite (getFragment_envelope env_linux {| version := 1; sd_content := linux_sync_content "[]" |}
             "keybindings") by discriminate.
  vm_compute. reflexivity.
Defined.

Lemma getPreview_sets env r l w p w' :
  getPreview env r l w = (Ok p, w') -> w_preview w' = Some p.
Proof.
  unfold getPreview, bind at 1, get. destruct (w_preview w) as [p0|] eqn:Ep.
  - intros E. inversion E; subst. exact Ep.
  - unfold bind. destruct (generatePreview env r l w) as [[p0| |] w1]; intros E; inversion E; subst.
    reflexivity.
Qed.

Lemma apply_clears env fp w w' : apply env fp w = (Ok tt, w') -> w_preview w' = None.
Proof.
  unfold apply, bind at 1, get. destruct (w_preview w) as [p|] eqn:Ep.
  - unfold bind. destruct (applyChanges env p fp w) as [[r| |] w1]; intros E; try discriminate E.
    destruct (applyCheckpoint env p r w1) as [[u| |] w2]; try discriminate E.
    unfold modify in E. inversion E. reflexivity.
  - intros E. inversion E; subst. exact Ep.
Qed.

(** X14: when [performSync] fails, no preview is left in flight. *)
Theorem performSync_err_clears env fuel r l w e w' :
  performSync env fuel r l w = (Err e, w') -> w_preview w' = None.
Proof.
  revert w e w'. induction fuel as [|f IH]; intros w e w' E; cbn [performSync] in E;
    unfold catch in E;
    (destruct (bind (getPreview env r l) _ w) as [[s|e0|] w1] eqn:Eb; [discriminate E | | discriminate E]);
    unfold bind at 1, modify in E;
    (destruct e0 as [[] | msg]; try (inversion E; reflexivity)).
  exact (IH _ _ _ E).
Qed.

Lemma performSync_err_clears_witness :
  fst (performSync env_linux 0 (remote_with "") None world_invalid_local)
  = Err (SyncError LocalInvalidContent) /\
  w_preview (snd (performSync env_linux 0 (remote_with "") None world_invalid_local)) = None.
Proof.
  split; [vm_compute; reflexivity |].
  apply (performSync_err_clears env_linux 0 (remote_with "") None world_invalid_local
           (SyncError LocalInvalidContent)).
  vm_compute. reflexivity.
Defined.

(** X15: when [performSync] completes, it returns [HasConflicts] with a
    conflicting preview in flight, or [Idle] with no preview in flight. *)
Theorem performSync_ok_preview env fuel r l w s w' :
  performSync env fuel r l w = (Ok s, w') ->
  (s = HasConflicts /\ exists p, w_preview w' = Some p /\ p_hasConflicts p = true) \/
  (s = Idle /\ w_preview w' = None).
Proof.
  revert w w'. induction fuel as [|f IH]; intros w w' E; cbn [performSync] in E;
    unfold catch in E;
    (destruct (bind (getPreview env r l) _ w) as [[s0|e0|] w1] eqn:Eb; [ | | discriminate E]).
  all: try (unfold bind at 1, modify in E; destruct e0 as [[] | msg]; try discriminate E;
            exact (IH _ _ E)).
  all: inversion E; subst s0 w1; unfold bind at 1 in Eb;
    destruct (getPreview env r l w) as [[p| |] w2] eqn:Ep; try discriminate Eb;
    apply getPreview_sets in Ep;
    (destruct (p_hasConflicts p) eqn:Hc;
     [ unfold ret in Eb; inversion Eb; subst; left; split; [reflexivity | exists p; auto]
     | unfold bind in Eb; destruct (apply env false w2) as [[[]| |] w3] eqn:Ea; try discriminate Eb;
       unfold ret in Eb; inversion Eb; subst; right; split; [reflexivity | exact (apply_clears _ _ _ _ Ea)] ]).
Qed.

Lemma performSync_ok_preview_witness :
  exists p, w_preview (snd (performSync env_linux 0 (remote_with "[2]") None world_conflict)) = Some p
            /\ p_hasConflicts p = true.
Proof.
  destruct (performSync_ok_preview env_linux 0 (remote_with "[2]") None world_conflict HasConflicts
              (snd (performSync env_linux 0 (remote_with "[2]") None world_conflict)))
    as [[_ H] | [D _]]; [vm_compute; reflexivity | exact H | discriminate D].
Defined.

#[export] Instance same_remote_writes_preorder : PreOrder same_remote_writes.
Proof. split; [intros w; reflexivity | intros a b c E1 E2; unfold same_remote_writes in *; congruence]. Qed.

#[export] Instance same_local_writes_preorder : PreOrder same_local_writes.
Proof. split; [intros w; reflexivity | intros a b c E1 E2; unfold same_local_writes in *; congruence]. Qed.

Lemma keeps_finally_setStatus (R : World -> World -> Prop) `{PreOrder World R} body :
  keeps R body -> (forall s, keeps R (setStatus s)) -> keeps R (finally_setStatus body).
Proof.
  intros Hb Hs w r w' E. unfold finally_setStatus in E.
  destruct (body w) as [[s|e|] w1] eqn:Eb; apply Hb in Eb.
  - etransitivity; [exact Eb | exact (Hs s _ _ _ E)].
  - destruct (setStatus Idle w1) as [r2 w2] eqn:Es. inversion E; subst.
    etransitivity; [exact Eb | exact (Hs Idle _ _ _ Es)].
  - destruct (setStatus Idle w1) as [r2 w2] eqn:Es. inversion E; subst.
    etransitivity; [exact Eb | exact (Hs Idle _ _ _ Es)].
Qed.

Lemma setStatus_same_remote_writes s : keeps same_remote_writes (setStatus s).
Proof. unfold setStatus. repeat frame_step; reflexivity. Qed.

Lemma setStatus_same_local_writes s : keeps same_local_writes (setStatus s).
Proof. unfold setStatus. repeat frame_step; reflexivity. Qed.

Lemma applyChanges_no_remote_write env P fp :
  p_hasRemoteChanged P = false -> keeps same_remote_writes (applyChanges env P fp).
Proof.
  intros HP. unfold applyChanges. rewrite HP.
  unfold toSyncContent, backupLocal, updateLocalFileContent, write_local, deletePreviewFile.
  repeat frame_step; reflexivity.
Qed.

Lemma applyCheckpoint_same_remote_writes env P r : keeps same_remote_writes (applyCheckpoint env P r).
Proof.
  unfold applyCheckpoint, updateLastSyncUserData, toSyncContent. repeat frame_step; reflexivity.
Qed.

(** [apply] of a preview that does not change the remote issues no remote write. *)
Lemma apply_no_remote_write env P :
  p_hasRemoteChanged P = false ->
  keeps same_remote_writes (modify (set_preview (Some P));; apply env false;; ret Idle).
Proof.
  intros HP w r w' E.
  assert (Eq : (modify (set_preview (Some P));; apply env false;; ret Idle) w
               = ((remoteUserData <- applyChanges env P false;;
                   applyCheckpoint env P remoteUserData;; modify (set_preview None));; ret Idle)
                   (set_preview (Some P) w)) by reflexivity.
  rewrite Eq in E. clear Eq.
  assert (K : keeps same_remote_writes
                ((remoteUserData <- applyChanges env P false;;
                  applyCheckpoint env P remoteUserData;; modify (set_preview None));; ret Idle)).
  { apply (keeps_bind same_remote_writes); [| intros; apply (keeps_ret same_remote_writes)].
    apply (keeps_bind same_remote_writes); [apply applyChanges_no_remote_write; exact HP | intros rud].
    apply (keeps_bind same_remote_writes); [apply applyCheckpoint_same_remote_writes | intros u].
    apply (keeps_modify same_remote_writes). intros w0. reflexivity. }
  apply K in E. exact E.
Qed.

Ltac frame_pull :=
  match goal with
  | |- keeps _ (bind (modify (set_preview (Some _))) _) => apply apply_no_remote_write; reflexivity
  | |- keeps _ (finally_setStatus _) =>
      apply (keeps_finally_setStatus same_remote_writes);
      [ | intros ?; apply setStatus_same_remote_writes ]
  | |- keeps _ (setStatus _) => apply setStatus_same_remote_writes
  | |- _ => frame_step
  end.

(** X16: [pull] never writes the remote store, whether it completes or
    fails. *)
Theorem pull_no_remote_write env w r w' :
  pull env w = (r, w') -> remote_writes (w_log w') = remote_writes (w_log w).
Proof.
  revert w r w'. change (keeps same_remote_writes (pull env)).
  unfold pull, getLastSyncUserData, getRemoteUserData, getUserData, read, request,
    no_store_url, getLocalFileContent, deletePreviewFile.
  repeat frame_pull; unfold same_remote_writes; cbn; reflexivity.
Qed.

Lemma pull_no_remote_write_witness :
  remote_writes (w_log (snd (pull env_linux world_pulled))) = remote_writes (w_log world_pulled).
Proof.
  apply (pull_no_remote_write env_linux world_pulled (fst (pull env_linux world_pulled))).
  apply surjective_pairing.
Defined.

Lemma applyChanges_no_local_write env P fp :
  p_hasLocalChanged P = false -> keeps same_local_writes (applyChanges env P fp).
Proof.
  intros HP. unfold applyChanges. rewrite HP.
  unfold toSyncContent, updateRemoteUserData, write, request, no_store_url, deletePreviewFile.
  repeat frame_step; unfold same_local_writes; cbn; reflexivity.
Qed.

Lemma applyCheckpoint_same_local_writes env P r : keeps same_local_writes (applyCheckpoint env P r).
Proof.
  unfold applyCheckpoint, updateLastSyncUserData, toSyncContent. repeat frame_step; reflexivity.
Qed.

Lemma apply_no_local_write env P :
  p_hasLocalChanged P = false ->
  keeps same_local_writes (modify (set_preview (Some P));; apply env true;; ret Idle).
Proof.
  intros HP w r w' E.
  assert (Eq : (modify (set_preview (Some P));; apply env true;; ret Idle) w
               = ((remoteUserData <- applyChanges env P true;;
                   applyCheckpoint env P remoteUserData;; modify (set_preview None));; ret Idle)
                   (set_preview (Some P) w)) by reflexivity.
  rewrite Eq in E. clear Eq.
  assert (K : keeps same_local_writes
                ((remoteUserData <- applyChanges env P true;;
                  applyCheckpoint env P remoteUserData;; modify (set_preview None));; ret Idle)).
  { apply (keeps_bind same_local_writes); [| intros; apply (keeps_ret same_local_writes)].
    apply (keeps_bind same_local_writes); [apply applyChanges_no_local_write; exact HP | intros rud].
    apply (keeps_bind same_local_writes); [apply applyCheckpoint_same_local_writes | intros u].
    apply (keeps_modify same_local_writes). intros w0. reflexivity. }
  apply K in E. exact E.
Qed.

Ltac frame_push :=
  match goal with
  | |- keeps _ (bind (modify (set_preview (Some _))) _) => apply apply_no_local_write; reflexivity
  | |- keeps _ (finally_setStatus _) =>
      apply (keeps_finally_setStatus same_local_writes);
      [ | intros ?; apply setStatus_same_local_writes ]
  | |- keeps _ (setStatus _) => apply setStatus_same_local_writes
  | |- _ => frame_step
  end.

(** X17: [push] never writes the local keybindings file, whether it
    completes or fails. *)
Theorem push_no_local_write env w r w' :
  push env w = (r, w') -> local_writes (w_log w') = local_writes (w_log w).
Proof.
  revert w r w'. change (keeps same_local_writes (push env)).
  unfold push, getLastSyncUserData, getRemoteUserData, getUserData, read, request,
    no_store_url, getLocalFileContent, deletePreviewFile.
  repeat frame_push; unfold same_local_writes; cbn; reflexivity.
Qed.

Lemma push_no_local_write_witness :
  local_writes (w_log (snd (push env_linux world_push))) = local_writes (w_log world_push).
Proof.
  apply (push_no_local_write env_linux world_push (fst (push env_linux world_push))).
  apply surjective_pairing.
Defined.

Lemma returns_bind {A B} (P : B -> Prop) (m : M A) (k : A -> M B) :
  (forall a, returns P (k a)) -> returns P (bind m k).
Proof.
  intros Hk w b w' E. unfold bind in E.
  destruct (m w) as [[a|e|] w1]; [exact (Hk a _ _ _ E) | discriminate E | discriminate E].
Qed.

Lemma returns_ret {A} (P : A -> Prop) (a : A) : P a -> returns P (ret a).
Proof. intros Ha w b w' E. inversion E; subst. exact Ha. Qed.

Lemma setStatus_status s w : w_status (snd (setStatus s w)) = s.
Proof.
  unfold setStatus, bind, get. destruct (status_eqb (w_status w) s) eqn:E.
  - cbn [snd ret]. destruct (w_status w), s; try discriminate E; reflexivity.
  - reflexivity.
Qed.

Lemma finally_setStatus_idle body w r w' :
  returns (fun s => s = Idle) body -> finally_setStatus body w = (r, w') -> w_status w' = Idle.
Proof.
  intros Hb E. unfold finally_setStatus in E.
  destruct (body w) as [[s|e|] w1] eqn:Eb.
  - rewrite (Hb _ _ _ Eb) in E. pose proof (setStatus_status Idle w1) as H. rewrite E in H. exact H.
  - pose proof (setStatus_status Idle w1) as H.
    destruct (setStatus Idle w1) as [r2 w2]. inversion E; subst. exact H.
  - pose proof (setStatus_status Idle w1) as H.
    destruct (setStatus Idle w1) as [r2 w2]. inversion E; subst. exact H.
Qed.

Ltac returns_idle :=
  repeat (first [ apply returns_bind; intros ?
                | apply returns_ret; reflexivity
                | match goal with |- returns _ (match ?x with _ => _ end) => destruct x end ]).

(** X18: when the resource is enabled, [pull] and [push] end with the
    status [Idle], whether they complete or fail. *)
Theorem pull_push_end_idle env w r w' :
  w_enabled w = true ->
  (pull env w = (r, w') -> w_status w' = Idle) /\ (push env w = (r, w') -> w_status w' = Idle).
Proof.
  intros He. split; intros E;
    [unfold pull in E | unfold push in E]; unfold bind at 1, get in E; rewrite He in E;
    cbn [negb] in E; unfold bind at 1, modify in E;
    (eapply finally_setStatus_idle; [| exact E]); returns_idle.
Qed.

Lemma pull_push_end_idle_witness :
  w_status (snd (pull env_linux world_pulled)) = Idle.
Proof.
  apply (proj1 (pull_push_end_idle env_linux world_pulled (fst (pull env_linux world_pulled))
                  (snd (pull env_linux world_pulled)) eq_refl)).
  apply surjective_pairing.
Defined.

Lemma getLastSyncUserData_reads v w w1 :
  w_last_sync w1 = w_last_sync w ->
  getLastSyncUserData v w1 = (fst (getLastSyncUserData v w), w1).
Proof. intros H. cbv [getLastSyncUserData bind get ret fst]. rewrite H. reflexivity. Qed.

(** X19: [sync(ref)] with the ref of the last-sync checkpoint skips the
    remote read: it runs [doSync] with the checkpoint as remote data, under
    the [Syncing] status. *)
Theorem sync_ref_shortcut v perf fuel w l :
  w_enabled w = true -> w_status w <> HasConflicts -> w_status w <> Syncing ->
  fst (getLastSyncUserData v w) = Ok (Some l) -> rref l <> "" ->
  sync v perf fuel (Some (rref l)) w
  = finally_setStatus (doSync v perf fuel l (Some l)) (snd (setStatus Syncing w)).
Proof.
  intros He Hc Hs Hl Hr.
  assert (Hset : setStatus Syncing w = (Ok tt, snd (setStatus Syncing w))).
  { unfold setStatus, bind, get.
    destruct (w_status w); try (exfalso; apply Hs; reflexivity); reflexivity. }
  unfold sync, bind at 1, get. rewrite He. cbn [negb].
  replace (status_eqb (w_status w) HasConflicts) with false
    by (destruct (w_status w); try (exfalso; apply Hc; reflexivity); reflexivity).
  replace (status_eqb (w_status w) Syncing) with false
    by (destruct (w_status w); try (exfalso; apply Hs; reflexivity); reflexivity).
  unfold bind at 1. rewrite Hset.
  unfold bind at 1. rewrite (getLastSyncUserData_reads v w) by
    (unfold setStatus, bind, get; destruct (status_eqb _ _); reflexivity).
  rewrite Hl.
  replace (truthy (Some (rref l))) with true
    by (destruct (rref l); [exfalso; apply Hr; reflexivity | reflexivity]).
  rewrite String.eqb_refl. reflexivity.
Qed.

Lemma sync_ref_shortcut_witness :
  sync kb_version (performSync env_linux 1) 1 (Some "1") world_pulled
  = finally_setStatus
      (doSync kb_version (performSync env_linux 1) 1
         {| rref := "1"; syncData := Some {| version := 1; sd_content := linux_sync_content "[]" |} |}
         (Some {| rref := "1"; syncData := Some {| version := 1; sd_content := linux_sync_content "[]" |} |}))
      (snd (setStatus Syncing world_pulled)).
Proof.
  apply (sync_ref_shortcut kb_version (performSync env_linux 1) 1 world_pulled
           {| rref := "1"; syncData := Some {| version := 1; sd_content := linux_sync_content "[]" |} |});
    [reflexivity | discriminate | discriminate | vm_compute; reflexivity | discriminate].
Defined.
